(** * beets-mtag-importer: the m-TAGS loader and the tag converters

    A shallow embedding of [beetsplug/import_mtag.py]:

    - [MTagLoader] ([_update], [items], [_resolve_path]): parsing one sidecar
      file into cumulative tag sets and resolving (possibly indexed) path
      references;
    - [Converter.get] and the decode rules used by the [TAGS] catalog;
    - [DependentConverter.get] with [Year], [Month], [Day], [DateHack].

    Python objects are the inductive [value]; a [dict] with string keys is a
    [gmap string value]; an exception is a constructor of [exn] carried by the
    result type [res].  What the program takes from its runtime (the file
    system, [str.casefold], [int] on strings, [dateutil]) is a field of the
    record [Runtime]. *)

From Stdlib Require Import ZArith String Ascii List Floats.
From stdpp Require Import base option list gmap strings fin_maps.

Set Warnings "-register-all".
Local Open Scope string_scope.
Local Open Scope Z_scope.

(** ** Python values, exceptions and results *)

Module Py.

(** The exception classes the program raises or meets.  [GenericException]
    is the bare [raise Exception] of [_resolve_path]. *)
Inductive exn :=
| KeyError
| LookupError
| ValueError
| NotImplementedError
| GenericException
| TypeError
| AttributeError
| IndexError
| OverflowError.

Global Instance exn_eq_dec : EqDecision exn.
Proof. solve_decision. Defined.

(** The outcome of a call: a returned object, a raised exception, or no
    outcome within the recursion budget ([Diverge]). *)
Inductive res (A : Type) :=
| Ok (a : A)
| Raise (e : exn)
| Diverge.
Global Arguments Ok {A} a.
Global Arguments Raise {A} e.
Global Arguments Diverge {A}.

Definition bind {A B} (m : res A) (k : A → res B) : res B :=
  match m with
  | Ok a => k a
  | Raise e => Raise e
  | Diverge => Diverge
  end.

(** A [datetime.date] is [VDate]; an [MTagDate] is [VMTagDate], whose last
    field is the attribute [_mtag_date].  The other constructors are the
    objects [json.load] builds.  [VDict kvs] is a dict whose [items()] are
    [kvs], in order. *)
Inductive value :=
| VNone
| VBool (b : bool)
| VInt (n : Z)
| VFloat (f : float)
| VStr (s : string)
| VList (l : list value)
| VDict (kvs : list (string * value))
| VDate (year month day : Z)
| VMTagDate (year month day : Z) (_mtag_date : bool).

(** [v == []] *)
Definition is_empty_list (v : value) : bool :=
  match v with
  | VList [] => true
  | _ => false
  end.

(** [v == s] for a string literal [s] *)
Definition is_str (s : string) (v : value) : bool :=
  match v with
  | VStr s' => String.eqb s' s
  | _ => false
  end.

(** *** Strings *)

(** [c in s] for a one-character string [c] *)
Fixpoint contains_char (c : ascii) (s : string) : bool :=
  match s with
  | EmptyString => false
  | String a s' => if Ascii.eqb a c then true else contains_char c s'
  end.

(** [s.count(c)] *)
Fixpoint count_char (c : ascii) (s : string) : nat :=
  match s with
  | EmptyString => O
  | String a s' => if Ascii.eqb a c then S (count_char c s') else count_char c s'
  end.

(** [s.split(c)]: the pieces between the occurrences of [c], never empty. *)
Fixpoint split (c : ascii) (s : string) : list string :=
  match s with
  | EmptyString => [EmptyString]
  | String a s' =>
      if Ascii.eqb a c then EmptyString :: split c s'
      else match split c s' with
           | piece :: pieces => String a piece :: pieces
           | [] => [String a EmptyString]
           end
  end.

(** [s.endswith(suffix)] *)
Fixpoint endswith (s suffix : string) : bool :=
  if String.eqb s suffix then true
  else match s with
       | EmptyString => false
       | String _ s' => endswith s' suffix
       end.

(** *** [int(x)] on numbers *)

(** [int(f)] for a float: truncation towards zero; NaN and the infinities
    raise. *)
Definition int_of_float (f : float) : res Z :=
  match Prim2SF f with
  | S754_zero _ => Ok 0
  | S754_infinity _ => Raise OverflowError
  | S754_nan => Raise ValueError
  | S754_finite sign m e =>
      let mag := if 0 <=? e then Z.shiftl (Z.pos m) e
                 else Z.shiftr (Z.pos m) (- e) in
      Ok (if sign then - mag else mag)
  end.

Global Instance res_bind : MBind res := λ A B k m, bind m k.
Global Instance res_ret : MRet res := λ A a, Ok a.

End Py.
Import Py.

(** ** The runtime the program calls into *)

Record Runtime := {
  (** [str.casefold] *)
  casefold : string → string;
  (** [int(s)] for a [str]; [None] stands for [ValueError] *)
  int_of_str : string → option Z;
  (** [str((Path(p).parent / ref).resolve())] *)
  resolve_from : string → string → string;
  (** [json.load] of the file at a path, read as utf-8-sig; [None] stands
      for any exception of [open] or of the parser *)
  load_json : string → option value;
  (** [dateutil.parser.parse(data)], as the (year, month, day) of the
      [datetime] it returns *)
  dateutil_parse : value → res (Z * Z * Z);
}.

(** ** MTagLoader *)

(** One turn of the loop of [items]: the entry is dropped by [continue] or a
    pair is yielded.  [data] is the dict of that name in the loop body, after
    the [pop]. *)
Inductive iteration :=
| Skipped (data : gmap string value)
| Yielded (path : string) (data : gmap string value).

(** The tag set of the entry of a turn. *)
Definition tag_set (it : iteration) : gmap string value :=
  match it with
  | Skipped data | Yielded _ data => data
  end.

(** How the generator stops: exhausted, by an exception, or not within the
    recursion budget. *)
Inductive ending :=
| Done
| Raised (e : exn)
| Diverged.

(** A turn of the loop, followed by the turns of the rest of the loop. *)
Definition continue_with (it : iteration) (g : list iteration * ending)
  : list iteration * ending := (it :: g.1, g.2).

(** The pairs a generator yields, in order. *)
Fixpoint yielded (its : list iteration) : list (string * gmap string value) :=
  match its with
  | [] => []
  | Skipped _ :: its' => yielded its'
  | Yielded path data :: its' => (path, data) :: yielded its'
  end.

(** [enumerate(gen, start=i)] searched for the item numbered [sub]: the
    loop of [_resolve_path].  It reads the generator no further than the
    item it returns. *)
Fixpoint nth_item (i sub : Z) (its : list iteration) (e : ending)
  : res (string * gmap string value) :=
  match its with
  | [] => match e with
          | Done => Raise LookupError
          | Raised x => Raise x
          | Diverged => Diverge
          end
  | Skipped _ :: its' => nth_item i sub its' e
  | Yielded r_path r_data :: its' =>
      if i =? sub then Ok (r_path, r_data) else nth_item (i + 1) sub its' e
  end.

(** [for item in obj] *)
Definition iterate (obj : value) : res (list value) :=
  match obj with
  | VList l => Ok l
  | VDict kvs => Ok (map (λ kv, VStr kv.1) kvs)
  | VStr s => Ok (map (λ c, VStr (String c EmptyString)) (list_ascii_of_string s))
  | _ => Raise TypeError
  end.

(** ['|' in path] *)
Definition contains_pipe (path : value) : res bool :=
  match path with
  | VStr s => Ok (contains_char "|" s)
  | VList l => Ok (existsb (is_str "|") l)
  | VDict kvs => Ok (existsb (λ kv, String.eqb kv.1 "|") kvs)
  | _ => Raise TypeError
  end.

Section Loader.
Variable R : Runtime.

(** [{k.casefold(): v for k, v in data.items()}] *)
Definition fold_keys (kvs : list (string * value)) : gmap string value :=
  foldl (λ m kv, <[casefold R kv.1 := kv.2]> m) ∅ kvs.

(** Whether the dict [kvs] has a key that folds to [k]. *)
Definition declares (k : string) (kvs : list (string * value)) : bool :=
  existsb (λ kv, String.eqb (casefold R kv.1) k) kvs.

(** The loop of [_update] that deletes every key whose value is [[]]. *)
Definition drop_empty (m : gmap string value) : gmap string value :=
  filter (λ kv, is_empty_list kv.2 = false) m.

(** [_update]: the new [self._tagset]; the returned dict is a copy of it. *)
Definition _update (tagset : gmap string value) (data : value)
  : res (gmap string value) :=
  match data with
  | VDict kvs => Ok (drop_empty (fold_keys kvs ∪ tagset))
  | _ => Raise AttributeError
  end.

(** The body of [for item in obj] in [items], from the state [tagset] of
    [self._tagset]; [rp] is [self._resolve_path]. *)
Fixpoint items_loop (rp : value → res string) (tagset : gmap string value)
    (obj : list value) : list iteration * ending :=
  match obj with
  | [] => ([], Done)
  | item :: rest =>
      match _update tagset item with
      | Ok tagset' =>
          match tagset' !! "@" with
          | Some ref =>
              let data := delete "@" tagset' in
              match rp ref with
              | Ok path =>
                  continue_with (Yielded path data)
                                (items_loop rp tagset' rest)
              | Raise NotImplementedError =>
                  continue_with (Skipped data) (items_loop rp tagset' rest)
              | Raise e => ([], Raised e)
              | Diverge => ([], Diverged)
              end
          | None => ([], Raised KeyError)
          end
      | Raise e => ([], Raised e)
      | Diverge => ([], Diverged)
      end
  end.

(** [items] of a loader on the file [self], fresh from [__init__]. *)
Definition items (rp : value → res string) (self : string)
  : list iteration * ending :=
  let obj := match load_json R self with
             | Some obj => obj
             | None => VList []
             end in
  match iterate obj with
  | Ok l => items_loop rp ∅ l
  | Raise e => ([], Raised e)
  | Diverge => ([], Diverged)
  end.

(** Lines 24 to 32 of [_resolve_path]: the split at ['|'] and the index.
    A [path] that is no [str] fails at [path.split] or at
    [self._path.parent / path]. *)
Definition split_reference (path : value) : res (string * option Z) :=
  has_pipe ← contains_pipe path;
  if has_pipe : bool then
    match path with
    | VStr s =>
        match split "|" s with
        | [path; sub] =>
            match int_of_str R sub with
            | Some sub => Ok (path, Some sub)
            | None => Raise NotImplementedError
            end
        | _ => Raise ValueError
        end
    | _ => Raise AttributeError
    end
  else
    match path with
    | VStr s => Ok (s, None)
    | _ => Raise TypeError
    end.

(** [_resolve_path] of the loader on the file [self].  The recursion of the
    source has no bound of its own; [fuel] counts the nested calls allowed.
    The recursion limit of the interpreter is not modelled. *)
Fixpoint _resolve_path (fuel : nat) (self : string) (path : value)
  : res string :=
  match fuel with
  | O => Diverge
  | S fuel =>
      '(path, sub) ← split_reference path;
      let path := resolve_from R self path in
      match sub with
      | Some sub =>
          if endswith path ".tags" then
            let resolver := path in
            let gen := items (_resolve_path fuel resolver) resolver in
            '(r_path, r_data) ← nth_item 1 sub gen.1 gen.2;
            _resolve_path fuel resolver (VStr r_path)
          else Raise GenericException
      | None => Ok path
      end
  end.

(** [MTagLoader(self).items()] *)
Definition loader_items (fuel : nat) (self : string)
  : list iteration * ending :=
  items (_resolve_path fuel self) self.

End Loader.

(** *** The recursion budget

    [fuel] is no part of the program.  A result reached within a budget is
    the result of the program; [refines r r'] says that [r'] is what a larger
    budget gives where a smaller one gave [r]. *)

Definition refines {A} (r r' : res A) : Prop :=
  r = Diverge ∨ r = r'.

Definition refines_gen (g g' : list iteration * ending) : Prop :=
  g = g' ∨ (g.2 = Diverged ∧ ∃ l, g'.1 = (g.1 ++ l)%list).

(** ** Converters *)

(** A [Converter] object: its aliases [_tags] and its [decode] method. *)
Record converter := {
  _tags : list string;
  decode : value → res value;
}.

(** [Converter.get]: the loop over [self._tags]. *)
Fixpoint get_loop (decode : value → res value) (tags : list string)
    (data : gmap string value) : res value :=
  match tags with
  | [] => Ok VNone
  | t :: tags' =>
      match data !! t with
      | Some v => decode v
      | None => get_loop decode tags' data
      end
  end.

Definition get (c : converter) (data : gmap string value) : res value :=
  get_loop (decode c) (_tags c) data.

(** [MTagDate(year, 1, 1)]: the year must lie in [MINYEAR..MAXYEAR]; one
    that does not fit a C [int] overflows instead. *)
Definition MTagDate_of_year (year : Z) : res value :=
  if (1 <=? year) && (year <=? 9999) then Ok (VMTagDate year 1 1 false)
  else if (- 2 ^ 31 <=? year) && (year <? 2 ^ 31) then Raise ValueError
  else Raise OverflowError.

Section Converters.
Variable R : Runtime.

(** [int(data)] *)
Definition py_int (data : value) : res Z :=
  match data with
  | VStr s =>
      match int_of_str R s with
      | Some n => Ok n
      | None => Raise ValueError
      end
  | VInt n => Ok n
  | VBool b => Ok (if b then 1 else 0)
  | VFloat f => int_of_float f
  | _ => Raise TypeError
  end.

Definition Converter (tags : list string) : converter :=
  {| _tags := tags; decode := λ data, Ok data |}.

Definition IntConverter (tags : list string) : converter :=
  {| _tags := tags; decode := λ data, n ← py_int data; Ok (VInt n) |}.

Definition ListConverter (tags : list string) : converter :=
  {| _tags := tags;
     decode := λ data,
       let data := match data with
                   | VList l => l
                   | _ => [data]
                   end in
       match data with
       | x :: _ => Ok x
       | [] => Raise IndexError
       end |}.

Definition BoolConverter (tags : list string) : converter :=
  {| _tags := tags;
     decode := λ data,
       match data with
       | VStr s =>
           Ok (VBool (negb (bool_decide
                 (casefold R s ∈ [""; "0"; "no"; "false"]))))
       | _ => Raise AttributeError
       end |}.

Definition DateConverter (tags : list string) : converter :=
  {| _tags := tags;
     decode := λ data,
       match (year ← py_int data; MTagDate_of_year year) with
       | Raise ValueError =>
           '(year, month, day) ← dateutil_parse R data;
           Ok (VMTagDate year month day true)
       | v => v
       end |}.

(** The entries of [TAGS] whose converters are modelled, in the order of
    the source; the four ReplayGain entries ([FloatConverter],
    [DbConverter]) are left out. *)
Definition TAGS : list (string * converter) :=
  [ ("title", Converter ["title"]);
    ("artist", ListConverter ["artist"]);
    ("album", Converter ["album"]);
    ("genre", ListConverter ["genres"; "genre"]);
    ("lyricist", Converter ["lyricist"]);
    ("composer", ListConverter ["composer"]);
    ("composer_sort", Converter ["composersort"]);
    ("arranger", Converter ["arranger"]);
    ("grouping", Converter ["grouping"]);
    ("track", IntConverter ["track"; "tracknumber"]);
    ("tracktotal", IntConverter ["tracktotal"; "trackc"; "totaltracks"]);
    ("disc", IntConverter ["disc"; "discnumber"]);
    ("disctotal", IntConverter ["disctotal"; "discc"; "totaldiscs"]);
    ("lyrics", Converter ["lyrics"; "unsyncedlyrics"]);
    ("comments", Converter ["description"; "comment"]);
    ("bpm", IntConverter ["bpm"]);
    ("comp", BoolConverter ["compilation"]);
    ("albumartist", Converter ["albumartist"; "album artist"]);
    ("albumtype", Converter ["musicbrainz_albumtype"]);
    ("label", ListConverter ["label"; "publisher"]);
    ("artist_sort", Converter ["artistsort"]);
    ("albumartist_sort", Converter ["albumartistsort"]);
    ("asin", Converter ["asin"]);
    ("catalognum", Converter ["catalognumber"]);
    ("disctitle", Converter ["discsubtitle"]);
    ("encoder", Converter ["encodedby"; "encoder"]);
    ("script", Converter ["script"]);
    ("language", Converter ["language"]);
    ("country", Converter ["releasecountry"]);
    ("albumstatus", Converter ["musicbrainz_albumstatus"]);
    ("media", Converter ["media"]);
    ("albumdisambig", Converter ["musicbrainz_albumcomment"]);
    ("date", DateConverter ["date"; "year"]);
    ("original_date", DateConverter ["originaldate"]);
    ("artist_credit", Converter ["artist_credit"]);
    ("albumartist_credit", Converter ["albumartist_credit"]);
    ("mb_trackid", Converter ["musicbrainz_trackid"]);
    ("mb_releasetrackid", Converter ["musicbrainz_releasetrackid"]);
    ("mb_albumid", Converter ["musicbrainz_albumid"]);
    ("mb_artistid", Converter ["musicbrainz_artistid"]);
    ("mb_albumartistid", Converter ["musicbrainz_albumartistid"]);
    ("mb_releasegroupid", Converter ["musicbrainz_releasegroupid"]);
    ("acoustid_fingerprint", Converter ["acoustid_fingerprint"]);
    ("acoustid_id", Converter ["acoustid_id"]);
    ("r128_track_gain", IntConverter ["r128_track_gain"]);
    ("r128_album_gain", IntConverter ["r128_album_gain"]);
    ("initial_key", Converter ["initialkey"]) ].

(** [TAGS[name]] *)
Definition TAGS_lookup (name : string) : option converter :=
  snd <$> List.find (λ kv, String.eqb kv.1 name) TAGS.

(** [TAGS[name].get(data)] *)
Definition tag_field (name : string) (data : gmap string value) : res value :=
  match TAGS_lookup name with
  | Some c => get c data
  | None => Raise KeyError
  end.

End Converters.

(** ** Dependent converters *)

(** A [DependentConverter] object: the field [dep] it reads and its
    [transform] method. *)
Record dependent_converter := {
  dep : string;
  transform : value → res value;
}.

(** [DependentConverter.get(data, context)]; [data] is not read. *)
Definition dependent_get (c : dependent_converter)
    (data context : gmap string value) : res value :=
  match context !! dep c with
  | Some v => transform c v
  | None => Ok VNone
  end.

Definition Year (dep : string) : dependent_converter :=
  {| dep := dep;
     transform := λ v,
       match v with
       | VDate year _ _ | VMTagDate year _ _ _ => Ok (VInt year)
       | _ => Raise AttributeError
       end |}.

Definition Month (dep : string) : dependent_converter :=
  {| dep := dep;
     transform := λ v,
       match v with
       | VMTagDate _ month _ _mtag_date =>
           Ok (if _mtag_date then VInt month else VNone)
       | _ => Raise AttributeError
       end |}.

Definition Day (dep : string) : dependent_converter :=
  {| dep := dep;
     transform := λ v,
       match v with
       | VMTagDate _ _ day _mtag_date =>
           Ok (if _mtag_date then VInt day else VNone)
       | _ => Raise AttributeError
       end |}.

Definition DateHack (dep : string) : dependent_converter :=
  {| dep := dep;
     transform := λ v,
       match v with
       | VDate year month day | VMTagDate year month day _ =>
           Ok (VDate year month day)
       | _ => Raise AttributeError
       end |}.

Definition DEPENDENT_TAGS : list (string * dependent_converter) :=
  [ ("year", Year "date");
    ("month", Month "date");
    ("day", Day "date");
    ("original_year", Year "original_date");
    ("original_month", Month "original_date");
    ("original_day", Day "original_date");
    ("date", DateHack "date");
    ("original_date", DateHack "original_date") ].

Definition DEPENDENT_TAGS_lookup (name : string) : option dependent_converter :=
  snd <$> List.find (λ kv, String.eqb kv.1 name) DEPENDENT_TAGS.

(** [DEPENDENT_TAGS[name].get(data, context)] *)
Definition dependent_field (name : string) (data context : gmap string value)
  : res value :=
  match DEPENDENT_TAGS_lookup name with
  | Some c => dependent_get c data context
  | None => Raise KeyError
  end.

(** ** A concrete runtime

    ASCII strings, a file system without symbolic links whose references
    have no [.] or [..] component, and ISO dates: enough to run the program
    on examples. *)

Module Sample.

Definition lower (c : ascii) : ascii :=
  let n := nat_of_ascii c in
  if (65 <=? n)%nat && (n <=? 90)%nat then ascii_of_nat (n + 32) else c.

(** [str.casefold] on ASCII text *)
Fixpoint ascii_casefold (s : string) : string :=
  match s with
  | EmptyString => EmptyString
  | String c s' => String (lower c) (ascii_casefold s')
  end.

(** The blanks that [int] and [float] strip from an ASCII string. *)
Definition is_space (c : ascii) : bool :=
  let n := nat_of_ascii c in
  ((9 <=? n)%nat && (n <=? 13)%nat) || (n =? 32)%nat.

Definition digit_of (c : ascii) : option Z :=
  let n := nat_of_ascii c in
  if (48 <=? n)%nat && (n <=? 57)%nat then Some (Z.of_nat n - 48) else None.

(** Decimal digits, single underscores allowed between two digits. *)
Fixpoint digits (acc : Z) (after_digit : bool) (l : list ascii) : option Z :=
  match l with
  | [] => if after_digit then Some acc else None
  | c :: l' =>
      match digit_of c with
      | Some d => digits (10 * acc + d) true l'
      | None =>
          if Ascii.eqb c "_" && after_digit then digits acc false l'
          else None
      end
  end.

Fixpoint lstrip (l : list ascii) : list ascii :=
  match l with
  | c :: l' => if is_space c then lstrip l' else l
  | [] => []
  end.

Definition strip (l : list ascii) : list ascii :=
  rev (lstrip (rev (lstrip l))).

(** [int(s)] on ASCII text: blanks around, a sign, decimal digits. *)
Definition ascii_int (s : string) : option Z :=
  match strip (list_ascii_of_string s) with
  | "-"%char :: l => Z.opp <$> digits 0 false l
  | "+"%char :: l => digits 0 false l
  | l => digits 0 false l
  end.

(** The names of a path: its pieces between ["/"], without the empty ones
    and the ["."]. *)
Definition names (s : string) : list string :=
  List.filter (λ c, negb (String.eqb c "") && negb (String.eqb c "."))
              (split "/" s).

(** The names of a path without symbolic links, read from the root: [".."]
    goes up, and stays at the root.  [above] is the path so far, innermost
    name first. *)
Fixpoint walk (above : list string) (l : list string) : list string :=
  match l with
  | [] => above
  | c :: l' =>
      if String.eqb c ".." then walk (tail above) l' else walk (c :: above) l'
  end.

(** The root of a path: two leading slashes are kept, as POSIX allows, one
    or three and more are one; a relative path is read from the working
    directory, which is the root. *)
Definition root_of (s : string) : string :=
  match s with
  | String "/" (String "/" (String "/" _)) => "/"
  | String "/" (String "/" _) => "//"
  | _ => "/"
  end.

Fixpoint join (l : list string) : string :=
  match l with
  | [] => EmptyString
  | [c] => c
  | c :: l' => c +:+ "/" +:+ join l'
  end.

(** [str((Path(self).parent / ref).resolve())] where there are no symbolic
    links and the working directory is the root. *)
Definition posix_resolve_from (self ref : string) : string :=
  match ref with
  | String "/" _ => root_of ref +:+ join (rev (walk [] (names ref)))
  | _ =>
      root_of self
      +:+ join (rev (walk [] (removelast (names self) ++ names ref)%list))
  end.

Definition two_digits (a b : ascii) : option Z :=
  x ← digit_of a; y ← digit_of b; Some (10 * x + y).

(** The number of days of a month. *)
Definition days_in_month (year month : Z) : Z :=
  if month =? 2 then
    if ((year mod 4 =? 0) && negb (year mod 100 =? 0)) || (year mod 400 =? 0)
    then 29 else 28
  else if (month =? 4) || (month =? 6) || (month =? 9) || (month =? 11)
  then 30 else 31.

(** [dateutil.parser.parse] on the form [YYYY-MM-DD]: a date of the calendar,
    or [ValueError]. *)
Definition iso_parse (data : value) : res (Z * Z * Z) :=
  match data with
  | VStr s =>
      match list_ascii_of_string s with
      | [y1; y2; y3; y4; "-"%char; m1; m2; "-"%char; d1; d2] =>
          match two_digits y1 y2, two_digits y3 y4,
                two_digits m1 m2, two_digits d1 d2 with
          | Some a, Some b, Some m, Some d =>
              let y := 100 * a + b in
              if (1 <=? y) && (1 <=? m) && (m <=? 12)
                 && (1 <=? d) && (d <=? days_in_month y m)
              then Ok (y, m, d) else Raise ValueError
          | _, _, _, _ => Raise ValueError
          end
      | _ => Raise ValueError
      end
  | _ => Raise TypeError
  end.

Definition album : list value :=
  [ VDict [("@", VStr "01.flac"); ("ALBUM", VStr "Blue");
           ("Genre", VList [VStr "rock"; VStr "pop"]); ("track", VStr "1")];
    VDict [("@", VStr "02.flac"); ("track", VStr "2"); ("genre", VList [])] ].

(** The tag sets of the two entries of [album]. *)
Definition album_1 : gmap string value :=
  {[ "album" := VStr "Blue"; "track" := VStr "1";
     "genre" := VList [VStr "rock"; VStr "pop"] ]}.

Definition album_2 : gmap string value :=
  {[ "album" := VStr "Blue"; "track" := VStr "2" ]}.

(** The sidecar files of the examples. *)
Definition files : list (string * value) :=
  [ ("/music/album.tags", VList album);
    ("/music/list.tags",
     VList [ VDict [("@", VStr "album.tags|2")] ]);
    ("/music/top.tags",
     VList [ VDict [("@", VStr "list.tags|1")] ]);
    ("/a|b/s.tags",
     VList [ VDict [("@", VStr "x.flac")] ]);
    ("/a|b/t.tags",
     VList [ VDict [("@", VStr "s.tags|1")] ]) ].

(** The second entry has no ["@"]. *)
Definition no_reference : list value :=
  [ VDict [("@", VStr "a.flac"); ("title", VStr "A")];
    VDict [("Title", VStr "B")];
    VDict [("@", VStr "c.flac")] ].

Definition read (path : string) : option value :=
  snd <$> List.find (λ kv, String.eqb kv.1 path) files.

Definition runtime : Runtime :=
  {| casefold := ascii_casefold;
     int_of_str := ascii_int;
     resolve_from := posix_resolve_from;
     load_json := read;
     dateutil_parse := iso_parse |}.

End Sample.

(** ** The converters of the ReplayGain fields *)

(** The end of the pattern of [DbConverter], a blank and [dB] in either case,
    at the start of [s]: the text after it. *)
Definition unit_at (s : string) : option string :=
  match s with
  | String " " (String d (String b rest)) =>
      if (Ascii.eqb d "d" || Ascii.eqb d "D")
         && (Ascii.eqb b "b" || Ascii.eqb b "B")
      then Some rest else None
  | _ => None
  end.

(** A match of the pattern of [DbConverter] at the start of [s]: its group 1
    and the text after the match.  The group is any text, as much as can be
    and without a newline; the blank and [dB] follow it. *)
Fixpoint match_db (s : string) : option (string * string) :=
  match s with
  | EmptyString => None
  | String c s' =>
      match (if Ascii.eqb c "010" then None else match_db s') with
      | Some (group, rest) => Some (String c group, rest)
      | None =>
          match unit_at s with
          | Some rest => Some (EmptyString, rest)
          | None => None
          end
      end
  end.

(** [re.sub] of [DbConverter] on [s]: from left to right, each match of the
    pattern is replaced by its group 1 and the scan goes on after the match.
    A match is never empty, so [fuel], the length of [s], is enough. *)
Fixpoint re_sub_db (fuel : nat) (s : string) : string :=
  match fuel with
  | O => s
  | S fuel =>
      match match_db s with
      | Some (group, rest) => group +:+ re_sub_db fuel rest
      | None =>
          match s with
          | EmptyString => EmptyString
          | String c s' => String c (re_sub_db fuel s')
          end
      end
  end.

Definition db_sub (s : string) : string := re_sub_db (String.length s) s.

(** Whether the end of the pattern occurs somewhere in [s]. *)
Fixpoint has_unit (s : string) : bool :=
  match unit_at s with
  | Some _ => true
  | None =>
      match s with
      | EmptyString => false
      | String _ s' => has_unit s'
      end
  end.

(** [v is None] *)
Definition is_none (v : value) : bool :=
  match v with
  | VNone => true
  | _ => false
  end.

Definition AUDIO_FIELDS : list string :=
  ["length"; "bitrate"; "format"; "samplerate"; "bitdepth"; "channels"].

Section Importer.
Variable R : Runtime.
(** [float(data)] *)
Variable py_float : value → res float.

Definition FloatConverter (tags : list string) : converter :=
  {| _tags := tags; decode := λ data, f ← py_float data; Ok (VFloat f) |}.

Definition DbConverter (tags : list string) : converter :=
  {| _tags := tags;
     decode := λ data,
       match data with
       | VStr s => f ← py_float (VStr (db_sub s)); Ok (VFloat f)
       | _ => Raise TypeError
       end |}.

(** [TAGS], whole, in the order of the source. *)
Definition TAGS_all : list (string * converter) :=
  (take 44 (TAGS R)
   ++ [ ("rg_track_gain", DbConverter ["replaygain_track_gain"]);
        ("rg_track_peak", FloatConverter ["replaygain_track_peak"]);
        ("rg_album_gain", DbConverter ["replaygain_album_gain"]);
        ("rg_album_peak", FloatConverter ["replaygain_album_peak"]) ]
   ++ drop 44 (TAGS R))%list.

(** The loop of [_import_mtags] over [TAGS.items()]: the dict [values] and
    the values assigned to the fields of [item].  [item] is the record of
    these assignments, each taken as a plain store: what the [Item] of beets
    does with a value on assignment (its normalisation by field type, and the
    exceptions of that) is not modelled. *)
Fixpoint convert_tags (tags : list (string * converter))
    (data values item : gmap string value)
  : res (gmap string value * gmap string value) :=
  match tags with
  | [] => Ok (values, item)
  | (tag, converter) :: tags' =>
      v ← get converter data;
      if is_none v then convert_tags tags' data values item
      else convert_tags tags' data (<[tag := v]> values) (<[tag := v]> item)
  end.

(** The loop of [_import_mtags] over [DEPENDENT_TAGS.items()]. *)
Fixpoint convert_dependent (tags : list (string * dependent_converter))
    (data values item : gmap string value) : res (gmap string value) :=
  match tags with
  | [] => Ok item
  | (tag, converter) :: tags' =>
      v ← dependent_get converter data values;
      convert_dependent tags' data values
        (if is_none v then item else <[tag := v]> item)
  end.

(** Lines 223 to 232 of [_import_mtags]: the fields of [item] after the two
    loops, from the fields it had before them. *)
Definition convert (data item : gmap string value) : res (gmap string value) :=
  '(values, item) ← convert_tags TAGS_all data ∅ item;
  convert_dependent DEPENDENT_TAGS data values item.

End Importer.

(** ** A concrete [float] for the examples *)

Module SampleFloat.

(** A sign, digits, and at most one point among them: the digits as an
    integer and the number of digits after the point. *)
Fixpoint decimal (acc : Z) (frac : option nat) (seen : bool) (l : list ascii)
  : option (Z * nat) :=
  match l with
  | [] => if seen then Some (acc, default O frac) else None
  | c :: l' =>
      match Sample.digit_of c with
      | Some d => decimal (10 * acc + d) (S <$> frac) true l'
      | None =>
          if Ascii.eqb c "." then
            match frac with
            | None => decimal acc (Some O) seen l'
            | Some _ => None
            end
          else None
      end
  end.

Definition of_nonneg (n : Z) : float := PrimFloat.of_uint63 (Uint63.of_Z n).

(** The float nearest to [m / 10 ^ k], for [m] below [2 ^ 53] and [k] at most
    18: both are floats, and the division rounds once. *)
Definition ratio (m : Z) (k : nat) : res float :=
  if (m <? 2 ^ 53) && (Z.of_nat k <=? 18)
  then Ok (PrimFloat.div (of_nonneg m) (of_nonneg (10 ^ Z.of_nat k)))
  else Raise ValueError.

(** [float] on floats, booleans, integers below [2 ^ 53] and short decimal
    literals; what lies beyond is answered with [ValueError]. *)
Definition small_float (data : value) : res float :=
  match data with
  | VFloat f => Ok f
  | VBool b => Ok (if b then 1%float else 0%float)
  | VInt n =>
      f ← ratio (Z.abs n) 0; Ok (if n <? 0 then PrimFloat.opp f else f)
  | VStr s =>
      match Sample.strip (list_ascii_of_string s) with
      | "-"%char :: l =>
          match decimal 0 None false l with
          | Some (m, k) => f ← ratio m k; Ok (PrimFloat.opp f)
          | None => Raise ValueError
          end
      | "+"%char :: l | l =>
          match decimal 0 None false l with
          | Some (m, k) => ratio m k
          | None => Raise ValueError
          end
      end
  | _ => Raise TypeError
  end.

End SampleFloat.

(** ** More files for the examples *)

Module Cases.

(** The tag set of a track with a full date and a gain. *)
Definition track_tags : gmap string value :=
  {[ "date" := VStr "1999-05-03"; "track" := VStr "3";
     "title" := VStr "Song"; "replaygain_track_gain" := VStr "-3 dB" ]}.

(** The fields read from the media file. *)
Definition audio : gmap string value :=
  {[ "length" := VInt 200; "bitrate" := VInt 320000 ]}.

(** The fields of the entry after the conversion of [track_tags]. *)
Definition track_item : gmap string value :=
  {[ "length" := VInt 200; "bitrate" := VInt 320000;
     "title" := VStr "Song"; "track" := VInt 3;
     "rg_track_gain" := VFloat (-3)%float;
     "date" := VDate 1999 5 3; "year" := VInt 1999;
     "month" := VInt 5; "day" := VInt 3 ]}.

(** A sidecar file whose only entry points at itself. *)
Definition looping : list value :=
  [ VDict [("@", VStr "a.tags|1")] ].

(** Direct references only, keys in mixed case. *)
Definition plain : list value :=
  [ VDict [("@", VStr "01.flac"); ("Artist", VStr "X"); ("artist", VStr "Y")];
    VDict [("@", VStr "02.flac"); ("TITLE", VStr "T")] ].

(** [plain] with other spellings of the same keys. *)
Definition plain_upper : list value :=
  [ VDict [("@", VStr "01.flac"); ("ARTIST", VStr "X"); ("ArTiSt", VStr "Y")];
    VDict [("@", VStr "02.flac"); ("title", VStr "T")] ].

(** A good entry followed by one that is no dict. *)
Definition broken_tail : list value :=
  [ VDict [("@", VStr "01.flac")]; VInt 7 ].

Definition files : list (string * value) :=
  [ ("/loop/a.tags", VList looping);
    ("/lib/plain.tags", VList plain);
    ("/lib/broken.tags", VList broken_tail);
    ("/lib/object.tags", VDict [("@", VStr "01.flac")]);
    ("/lib/number.tags", VInt 3) ].

Definition read (path : string) : option value :=
  match List.find (λ kv, String.eqb kv.1 path) files with
  | Some kv => Some kv.2
  | None => Sample.read path
  end.

Definition runtime : Runtime :=
  {| casefold := Sample.ascii_casefold;
     int_of_str := Sample.ascii_int;
     resolve_from := Sample.posix_resolve_from;
     load_json := read;
     dateutil_parse := Sample.iso_parse |}.

End Cases.

(** * Properties *)

(** ** Strings *)

Lemma split_length (c : ascii) (s : string) :
  length (split c s) = S (count_char c s).
Proof.
  induction s as [|a s IH]; simpl; [done|].
  destruct (Ascii.eqb a c); simpl; [by rewrite IH|].
  destruct (split c s) as [|piece pieces]; simpl in *; lia.
Qed.

Lemma contains_char_count (c : ascii) (s : string) :
  contains_char c s = false ↔ count_char c s = O.
Proof.
  induction s as [|a s IH]; simpl; [done|].
  destruct (Ascii.eqb a c); [split; discriminate | done].
Qed.

Lemma split_two_contains (c : ascii) (s a b : string) :
  split c s = [a; b] → contains_char c s = true.
Proof.
  intros Hs. pose proof (split_length c s) as Hl. rewrite Hs in Hl.
  destruct (contains_char c s) eqn:Hc; [done|].
  apply contains_char_count in Hc. simpl in Hl. lia.
Qed.

Lemma split_two_count (c : ascii) (s : string) :
  count_char c s = 1%nat ↔ ∃ a b, split c s = [a; b].
Proof.
  pose proof (split_length c s) as Hl. split.
  - intros Hc. rewrite Hc in Hl.
    destruct (split c s) as [|a [|b [|]]]; simpl in Hl; try lia. eauto.
  - intros (a & b & Hs). rewrite Hs in Hl. simpl in Hl. lia.
Qed.

(** ** The loop of [items] *)

Section LoaderFacts.
Variable R : Runtime.
Implicit Types (rp : value → res string) (ts : gmap string value).

Lemma items_loop_yield rp ts ts' item rest ref path :
  _update R ts item = Ok ts' → ts' !! "@" = Some ref → rp ref = Ok path →
  items_loop R rp ts (item :: rest)
  = continue_with (Yielded path (delete "@" ts')) (items_loop R rp ts' rest).
Proof.
  intros Hu Hr Hp. simpl. by rewrite Hu, Hr, Hp.
Qed.

Lemma items_loop_skip rp ts ts' item rest ref :
  _update R ts item = Ok ts' → ts' !! "@" = Some ref →
  rp ref = Raise NotImplementedError →
  items_loop R rp ts (item :: rest)
  = continue_with (Skipped (delete "@" ts')) (items_loop R rp ts' rest).
Proof.
  intros Hu Hr Hp. simpl. by rewrite Hu, Hr, Hp.
Qed.

Lemma items_loop_raise rp ts ts' item rest ref e :
  _update R ts item = Ok ts' → ts' !! "@" = Some ref →
  rp ref = Raise e → e ≠ NotImplementedError →
  items_loop R rp ts (item :: rest) = ([], Raised e).
Proof.
  intros Hu Hr Hp He. simpl. rewrite Hu, Hr, Hp. by destruct e.
Qed.

Lemma items_loop_no_reference rp ts ts' item rest :
  _update R ts item = Ok ts' → ts' !! "@" = None →
  items_loop R rp ts (item :: rest) = ([], Raised KeyError).
Proof. intros Hu Hr. simpl. by rewrite Hu, Hr. Qed.

(** The first turn of a loop that made one: the entry is a dict, its
    reference is the ["@"] of the merged tag set, and the loop goes on from
    the merged tag set. *)
Lemma items_loop_head rp ts obj it its e :
  items_loop R rp ts obj = (it :: its, e) →
  ∃ kvs rest ts' ref,
    obj = VDict kvs :: rest ∧
    ts' = drop_empty (fold_keys R kvs ∪ ts) ∧
    ts' !! "@" = Some ref ∧
    items_loop R rp ts' rest = (its, e) ∧
    tag_set it = delete "@" ts' ∧
    match it with
    | Yielded path _ => rp ref = Ok path
    | Skipped _ => rp ref = Raise NotImplementedError
    end.
Proof.
  destruct obj as [|item rest]; simpl; [done|].
  destruct (_update R ts item) as [ts'| |] eqn:Hu; [|done..].
  destruct item; simpl in Hu; try done.
  injection Hu as <-.
  set (ts' := drop_empty (fold_keys R kvs ∪ ts)).
  destruct (ts' !! "@") as [ref|] eqn:Hr; [|done].
  destruct (rp ref) as [path|x|] eqn:Hp; [| |done].
  - destruct (items_loop R rp ts' rest) as [its' e'] eqn:Hl.
    intros [= <- <- <-]. by exists kvs, rest, ts', ref.
  - destruct x; try done.
    destruct (items_loop R rp ts' rest) as [its' e'] eqn:Hl.
    intros [= <- <- <-]. by exists kvs, rest, ts', ref.
Qed.

(** After [i] turns the loop is the same loop, from a later state, on the
    entries that are left. *)
Lemma items_loop_drop rp (i : nat) : ∀ obj ts its e,
  items_loop R rp ts obj = (its, e) → (i ≤ length its)%nat →
  ∃ ts_i, items_loop R rp ts_i (drop i obj) = (drop i its, e).
Proof.
  induction i as [|i IH]; intros obj ts its e Hl Hi.
  - exists ts. by rewrite !drop_0.
  - destruct its as [|it its]; simpl in Hi; [lia|].
    apply items_loop_head in Hl as (kvs & rest & ts' & ref & -> & _ & _ & Hl & _).
    simpl. apply (IH _ _ _ _ Hl). lia.
Qed.

Lemma drop_empty_lookup ts k v :
  drop_empty ts !! k = Some v ↔ ts !! k = Some v ∧ is_empty_list v = false.
Proof. unfold drop_empty. by rewrite map_lookup_filter_Some. Qed.

Lemma drop_empty_lookup_None ts k :
  drop_empty ts !! k = None
  ↔ ts !! k = None ∨ ∃ v, ts !! k = Some v ∧ is_empty_list v = true.
Proof.
  unfold drop_empty. rewrite map_lookup_filter_None. split.
  - intros [?|Hv]; [by left|].
    destruct (ts !! k) as [v|] eqn:Hk; [right|by left].
    exists v. split; [done|]. specialize (Hv v eq_refl). simpl in Hv.
    by destruct (is_empty_list v).
  - intros [?|(v & Hk & Hv)]; [by left|right].
    intros v' Hk'. simpl. congruence.
Qed.

Lemma fold_keys_acc k kvs : ∀ m : gmap string value,
  declares R k kvs = false →
  foldl (λ m kv, <[casefold R kv.1 := kv.2]> m) m kvs !! k = m !! k.
Proof.
  induction kvs as [|[k' v'] kvs IH]; intros m; simpl; [done|].
  intros [Hk Hd]%orb_false_elim. rewrite (IH _ Hd).
  apply lookup_insert_ne. intros Heq. simpl in Heq, Hk.
  by rewrite Heq, String.eqb_refl in Hk.
Qed.

Lemma fold_keys_undeclared k kvs :
  declares R k kvs = false → fold_keys R kvs !! k = None.
Proof. intros Hd. unfold fold_keys. by rewrite (fold_keys_acc _ _ _ Hd). Qed.

(** The reserved key of the previous tag set has no part in the tag set
    that is yielded next. *)
Lemma merge_without_reference (m ts : gmap string value) :
  delete "@" (drop_empty (m ∪ ts))
  = delete "@" (drop_empty (m ∪ delete "@" ts)).
Proof.
  apply map_eq. intros k. destruct (decide (k = "@")) as [->|Hk].
  - by rewrite !lookup_delete_eq.
  - rewrite !lookup_delete_ne by done.
    apply option_eq. intros v. rewrite !drop_empty_lookup.
    by rewrite !lookup_union, lookup_delete_ne.
Qed.

End LoaderFacts.

(** ** Reference resolution *)

Section ResolverFacts.
Variable R : Runtime.

Lemma resolve_path_unfold (n : nat) (self : string) (path : value) :
  _resolve_path R (S n) self path
  = '(path, sub) ← split_reference R path;
    match sub with
    | Some sub =>
        if endswith (resolve_from R self path) ".tags" then
          let resolver := resolve_from R self path in
          let gen := items R (_resolve_path R n resolver) resolver in
          '(r_path, r_data) ← nth_item 1 sub gen.1 gen.2;
          _resolve_path R n resolver (VStr r_path)
        else Raise GenericException
    | None => Ok (resolve_from R self path)
    end.
Proof. reflexivity. Qed.

Lemma split_reference_direct (s : string) :
  contains_char "|" s = false →
  split_reference R (VStr s) = Ok (s, None).
Proof. intros Hc. unfold split_reference. simpl. by rewrite Hc. Qed.

Lemma split_reference_indexed (s base idx : string) (k : Z) :
  split "|" s = [base; idx] → int_of_str R idx = Some k →
  split_reference R (VStr s) = Ok (base, Some k).
Proof.
  intros Hs Hi. unfold split_reference. simpl.
  by rewrite (split_two_contains _ _ _ _ Hs), Hs, Hi.
Qed.

Lemma split_reference_unsupported (s base idx : string) :
  split "|" s = [base; idx] → int_of_str R idx = None →
  split_reference R (VStr s) = Raise NotImplementedError.
Proof.
  intros Hs Hi. unfold split_reference. simpl.
  by rewrite (split_two_contains _ _ _ _ Hs), Hs, Hi.
Qed.

Lemma split_reference_many (s : string) :
  (2 ≤ count_char "|" s)%nat →
  split_reference R (VStr s) = Raise ValueError.
Proof.
  intros Hc. unfold split_reference. simpl.
  destruct (contains_char "|" s) eqn:Hp.
  - pose proof (split_length "|" s) as Hl.
    destruct (split "|" s) as [|a [|b [|c l]]]; simpl in *; try done; lia.
  - apply contains_char_count in Hp. lia.
Qed.

(** The search of [_resolve_path] in a generator that yields fewer than
    [sub] pairs ends the way the generator ends. *)
Lemma nth_item_beyond (its : list iteration) (e : ending) : ∀ i sub : Z,
  sub < i ∨ i + Z.of_nat (length (yielded its)) ≤ sub →
  nth_item i sub its e
  = match e with
    | Done => Raise LookupError
    | Raised x => Raise x
    | Diverged => Diverge
    end.
Proof.
  induction its as [|[|p d] its IH]; intros i sub Hs; simpl in *; [done|auto|].
  destruct (Z.eqb_spec i sub) as [->|Hne]; [lia|].
  apply IH. lia.
Qed.

(** The search returns the pair numbered [sub] when there is one. *)
Lemma nth_item_found (its : list iteration) (e : ending) : ∀ (i sub : Z) pd,
  nth_item i sub its e = Ok pd →
  i ≤ sub ∧ yielded its !! Z.to_nat (sub - i) = Some pd.
Proof.
  induction its as [|[|p d] its IH]; intros i sub pd; simpl.
  - by destruct e.
  - apply IH.
  - destruct (Z.eqb_spec i sub) as [->|Hne].
    + intros [= <-]. by rewrite Z.sub_diag.
    + intros [Hle Hl]%IH. split; [lia|].
      replace (Z.to_nat (sub - i)) with (S (Z.to_nat (sub - (i + 1)))) by lia.
      done.
Qed.

(** The generator never ends with [NotImplementedError]: [items] catches
    it. *)
Lemma items_loop_ending (rp : value → res string) (obj : list value) :
  ∀ ts, (items_loop R rp ts obj).2 ≠ Raised NotImplementedError.
Proof.
  induction obj as [|item rest IH]; intros ts; simpl; [done|].
  destruct item; simpl; try done.
  destruct (_ !! "@") as [ref|]; [|done].
  destruct (rp ref) as [path|[]|]; simpl; done || apply IH.
Qed.

Lemma items_ending (rp : value → res string) (self : string) :
  (items R rp self).2 ≠ Raised NotImplementedError.
Proof.
  unfold items. destruct (iterate _) as [l|x|] eqn:Hi; simpl; [|..].
  - apply items_loop_ending.
  - intros [= ->]. by destruct (match load_json R self with
                                | Some obj => obj | None => VList [] end).
  - done.
Qed.

(** Each yielded path is what [rp] returned for the ["@"] of the merged
    tag set of its entry. *)
Lemma items_loop_yielded (rp : value → res string) (obj : list value) :
  ∀ ts path data,
    (path, data) ∈ yielded (items_loop R rp ts obj).1 →
    ∃ ts' ref, ts' !! "@" = Some ref ∧ data = delete "@" ts' ∧
               rp ref = Ok path.
Proof.
  induction obj as [|item rest IH]; intros ts path data; simpl.
  { by intros ?%elem_of_nil. }
  destruct item; simpl; try by intros ?%elem_of_nil.
  set (ts' := drop_empty _).
  destruct (ts' !! "@") as [ref|] eqn:Hr; [|by intros ?%elem_of_nil].
  destruct (rp ref) as [p|[]|] eqn:Hp; simpl;
    try (by intros ?%elem_of_nil); [|by apply IH].
  intros [[= -> ->]|Hin]%elem_of_cons; [by exists ts', ref|by eapply IH].
Qed.

Lemma items_yielded (rp : value → res string) (self path : string)
    (data : gmap string value) :
  (path, data) ∈ yielded (items R rp self).1 →
  ∃ ts' ref, ts' !! "@" = Some ref ∧ data = delete "@" ts' ∧
             rp ref = Ok path.
Proof.
  unfold items. destruct (iterate _) as [l|x|]; simpl;
    [apply items_loop_yielded|by intros ?%elem_of_nil..].
Qed.

(** The search finds the pair numbered [sub] of the yielded pairs. *)
Lemma nth_item_lookup (its : list iteration) (e : ending) : ∀ (i sub : Z) pd,
  i ≤ sub → yielded its !! Z.to_nat (sub - i) = Some pd →
  nth_item i sub its e = Ok pd.
Proof.
  induction its as [|[|p d] its IH]; intros i sub pd Hle; simpl; [done|auto|].
  destruct (Z.eqb_spec i sub) as [->|Hne].
  - rewrite Z.sub_diag. by intros [= <-].
  - replace (Z.to_nat (sub - i)) with (S (Z.to_nat (sub - (i + 1)))) by lia.
    simpl. apply IH. lia.
Qed.

(** *** A larger budget keeps the results of a smaller one *)

Lemma refines_gen_continue it g g' :
  refines_gen g g' → refines_gen (continue_with it g) (continue_with it g').
Proof.
  intros [->|[Hd [l Hl]]]; [by left|right]. simpl.
  split; [done|]. exists l. by rewrite Hl.
Qed.

Lemma items_loop_mono (rp rp' : value → res string) (obj : list value) :
  (∀ v, refines (rp v) (rp' v)) →
  ∀ ts, refines_gen (items_loop R rp ts obj) (items_loop R rp' ts obj).
Proof.
  intros Hrp. induction obj as [|item rest IH]; intros ts; simpl; [by left|].
  destruct (_update R ts item) as [ts'| |]; [|by left..].
  destruct (ts' !! "@") as [ref|]; [|by left].
  destruct (Hrp ref) as [->| ->].
  - right. simpl. split; [done|]. by eexists.
  - destruct (rp' ref) as [path|[]|]; try (by left);
      apply refines_gen_continue, IH.
Qed.

Lemma items_mono (rp rp' : value → res string) (self : string) :
  (∀ v, refines (rp v) (rp' v)) →
  refines_gen (items R rp self) (items R rp' self).
Proof.
  intros Hrp. unfold items. destruct (iterate _); [|by left..].
  by apply items_loop_mono.
Qed.

Lemma nth_item_mono (sub : Z) g g' :
  refines_gen g g' →
  ∀ i, refines (nth_item i sub g.1 g.2) (nth_item i sub g'.1 g'.2).
Proof.
  intros [->|[Hd [l Hl]]] i; [by right|].
  rewrite Hd, Hl. clear Hd Hl. generalize g'.2. revert i.
  induction g.1 as [|[|p d] its IH]; intros i e'; simpl; [by left|auto|].
  destruct (i =? sub); [by right|auto].
Qed.

Lemma resolve_path_mono_S (n : nat) : ∀ self path,
  refines (_resolve_path R n self path) (_resolve_path R (S n) self path).
Proof.
  induction n as [|n IH]; intros self path; [by left|].
  rewrite (resolve_path_unfold (S n)), (resolve_path_unfold n).
  destruct (split_reference R path) as [[base [sub|]]| |]; simpl;
    [|by right..].
  destruct (endswith _ ".tags"); [|by right].
  set (s := resolve_from R self base).
  destruct (nth_item_mono sub _ _ (items_mono _ _ s (IH s)) 1) as [->| ->];
    [by left|].
  destruct (nth_item 1 sub _ _) as [[r_path r_data]| |]; simpl;
    [apply IH|by right..].
Qed.

Lemma resolve_path_mono (n m : nat) (self : string) (path : value) :
  (n ≤ m)%nat → _resolve_path R n self path ≠ Diverge →
  _resolve_path R m self path = _resolve_path R n self path.
Proof.
  intros Hle Hd. induction Hle as [|m Hle IH]; [done|].
  destruct (resolve_path_mono_S m self path) as [Hm|Hm]; congruence.
Qed.

(** A path returned by [_resolve_path] is the resolution of a reference
    without ['|']: the recursion ends at a direct reference. *)
Lemma resolve_path_direct_end (n : nat) : ∀ self path p,
  _resolve_path R n self path = Ok p →
  ∃ s ref, contains_char "|" ref = false ∧ p = resolve_from R s ref.
Proof.
  induction n as [|n IH]; intros self path p; [done|].
  rewrite resolve_path_unfold.
  destruct (split_reference R path) as [[base [sub|]]| |] eqn:Hs; simpl;
    [| |done..].
  - destruct (endswith _ ".tags"); [|done].
    destruct (nth_item 1 sub _ _) as [[r_path r_data]| |]; simpl; [|done..].
    apply IH.
  - intros [= <-]. exists self, base. split; [|done].
    unfold split_reference in Hs. destruct path; simpl in Hs; try done.
    + destruct (contains_char "|" s) eqn:Hc.
      * destruct (split "|" s) as [|a [|b [|]]]; try done.
        by destruct (int_of_str R b).
      * by injection Hs as <-.
    + by destruct (existsb _ l).
    + by destruct (existsb _ kvs).
Qed.

End ResolverFacts.

(** ** Entries without a reference *)

(** C1, as amended.  An entry that has no key ["@"] is no parse error of its
    own.  When the running tag set holds an ["@"], left there by an earlier
    entry, the entry takes it over and is treated as an entry that declares
    that reference: a pair is yielded for it when the reference resolves to a
    path, the entry is dropped when the resolution raises
    [NotImplementedError], and any other exception of the resolution leaves
    the generator.  When the running tag set holds none, as for the first
    entry of a file, [KeyError] leaves the generator and no later entry is
    yielded. *)
Theorem entry_without_reference (R : Runtime) (rp : value → res string)
    (ts : gmap string value) (kvs : list (string * value)) (rest : list value) :
  declares R "@" kvs = false →
  let ts' := drop_empty (fold_keys R kvs ∪ ts) in
  (∀ ref, ts !! "@" = Some ref → is_empty_list ref = false →
     ts' !! "@" = Some ref ∧
     items_loop R rp ts (VDict kvs :: rest)
     = match rp ref with
       | Ok path =>
           continue_with (Yielded path (delete "@" ts'))
                         (items_loop R rp ts' rest)
       | Raise NotImplementedError =>
           continue_with (Skipped (delete "@" ts')) (items_loop R rp ts' rest)
       | Raise e => ([], Raised e)
       | Diverge => ([], Diverged)
       end)
  ∧ (ts !! "@" = None →
     items_loop R rp ts (VDict kvs :: rest) = ([], Raised KeyError))
  ∧ items_loop R rp ∅ (VDict kvs :: rest) = ([], Raised KeyError).
Proof.
  intros Hd ts'.
  assert (Hnone : ∀ ts0 : gmap string value, ts0 !! "@" = None →
            items_loop R rp ts0 (VDict kvs :: rest) = ([], Raised KeyError)).
  { intros ts0 H0. eapply items_loop_no_reference; [done|].
    apply drop_empty_lookup_None. left.
    by rewrite lookup_union, (fold_keys_undeclared _ _ _ Hd), H0. }
  split_and!; [|apply Hnone|apply Hnone, lookup_empty].
  intros ref Hr He.
  assert (Hr' : ts' !! "@" = Some ref).
  { apply drop_empty_lookup. split; [|done].
    by rewrite lookup_union, (fold_keys_undeclared _ _ _ Hd), Hr. }
  split; [done|].
  destruct (rp ref) as [path|x|] eqn:Hp.
  - by eapply items_loop_yield.
  - destruct (decide (x = NotImplementedError)) as [->|Hx].
    + by eapply items_loop_skip.
    + rewrite (items_loop_raise R rp ts ts' (VDict kvs) rest ref x
                 eq_refl Hr' Hp Hx).
      by destruct x.
  - simpl. fold ts'. by rewrite Hr', Hp.
Qed.

Lemma entry_without_reference_witness :
  let R := Sample.runtime in
  let rp := _resolve_path R 1 "/music/x.tags" in
  (items_loop R rp {[ "@" := VStr "a.flac"; "title" := VStr "A" ]}
     [VDict [("Title", VStr "B")]; VDict [("@", VStr "c.flac")]]
   = ([Yielded "/music/a.flac" {[ "title" := VStr "B" ]};
       Yielded "/music/c.flac" {[ "title" := VStr "B" ]}], Done))
  ∧ (items_loop R rp {[ "@" := VStr "x.zip|inner.flac" ]}
       [VDict [("Title", VStr "B")]; VDict [("@", VStr "c.flac")]]
     = ([Skipped {[ "title" := VStr "B" ]};
         Yielded "/music/c.flac" {[ "title" := VStr "B" ]}], Done)).
Proof.
  intros R rp. split.
  - destruct (entry_without_reference R rp
                {[ "@" := VStr "a.flac"; "title" := VStr "A" ]}
                [("Title", VStr "B")]
                [VDict [("@", VStr "c.flac")]] eq_refl) as (Hin & _ & _).
    destruct (Hin (VStr "a.flac") eq_refl eq_refl) as [_ Hy].
    rewrite Hy. vm_compute. reflexivity.
  - destruct (entry_without_reference R rp
                {[ "@" := VStr "x.zip|inner.flac" ]}
                [("Title", VStr "B")]
                [VDict [("@", VStr "c.flac")]] eq_refl) as (Hin & _ & _).
    destruct (Hin (VStr "x.zip|inner.flac") eq_refl eq_refl) as [_ Hy].
    rewrite Hy. vm_compute. reflexivity.
Defined.

(** C1 fails as it is written: in a file whose second entry has no ["@"],
    a pair is yielded for that entry, under the reference of the first; and
    the same entries without the first raise [KeyError], so that the third
    entry is not yielded. *)
Lemma entry_without_reference_not_skipped :
  let rp := _resolve_path Sample.runtime 1 "/music/x.tags" in
  (items_loop Sample.runtime rp ∅ Sample.no_reference).1 !! 1%nat
  = Some (Yielded "/music/a.flac" {[ "title" := VStr "B" ]})
  ∧ items_loop Sample.runtime rp ∅ (drop 1 Sample.no_reference)
    = ([], Raised KeyError).
Proof. split; reflexivity. Qed.

(** ** The cumulative merge *)

(** Two turns of the loop that follow each other: the second entry is a dict
    and its tag set is the merge of its keys into the merged tag set of the
    first. *)
Lemma items_loop_consecutive (R : Runtime) (rp : value → res string)
    (ts : gmap string value) (obj : list value) (i : nat)
    (it it' : iteration) :
  (items_loop R rp ts obj).1 !! i = Some it →
  (items_loop R rp ts obj).1 !! S i = Some it' →
  ∃ kvs ts1, obj !! S i = Some (VDict kvs) ∧
    tag_set it = delete "@" (drop_empty ts1) ∧
    tag_set it' = delete "@" (drop_empty (fold_keys R kvs ∪ drop_empty ts1)).
Proof.
  destruct (items_loop R rp ts obj) as [its e] eqn:Hl. simpl.
  intros Hi HSi.
  destruct (items_loop_drop R rp i _ _ _ _ Hl) as [ts_i Hd].
  { apply lookup_lt_Some in Hi. lia. }
  rewrite (drop_S _ _ _ Hi) in Hd.
  apply items_loop_head in Hd
    as (kvs1 & rest1 & ts1 & ref1 & Ho1 & Hts1 & _ & Hd & -> & _).
  rewrite (drop_S _ _ _ HSi) in Hd.
  apply items_loop_head in Hd
    as (kvs2 & rest2 & ts2 & ref2 & -> & -> & _ & _ & -> & _).
  exists kvs2, (fold_keys R kvs1 ∪ ts_i). split_and!.
  - rewrite <- (Nat.add_1_r i), <- lookup_drop, Ho1. done.
  - by rewrite Hts1.
  - by rewrite Hts1.
Qed.

(** C2.  In one file, the tag set of an entry is the tag set of the entry
    before it, overlaid with the entry's own keys, case folded, without the
    keys whose merged value is the empty list (and without the reserved key
    ["@"], which carries the reference).  A key that the entry does not
    declare keeps the value it had; a key whose merged value is the empty
    list is absent.  This holds for the tag sets of yielded pairs, and also
    where the entry before was dropped for its reference. *)
Theorem cumulative_merge (R : Runtime) (rp : value → res string)
    (ts : gmap string value) (obj : list value) (i : nat)
    (it it' : iteration) :
  (items_loop R rp ts obj).1 !! i = Some it →
  (items_loop R rp ts obj).1 !! S i = Some it' →
  let d := tag_set it in
  let d' := tag_set it' in
  ∃ kvs, obj !! S i = Some (VDict kvs) ∧
    d' = delete "@" (drop_empty (fold_keys R kvs ∪ d)) ∧
    (∀ k, k ≠ "@" → declares R k kvs = false → d' !! k = d !! k) ∧
    (∀ k, (fold_keys R kvs ∪ d) !! k = Some (VList []) → d' !! k = None).
Proof.
  intros Hi HSi.
  destruct (items_loop_consecutive _ _ _ _ _ _ _ Hi HSi)
    as (kvs & ts1 & Ho & -> & ->).
  exists kvs. rewrite merge_without_reference.
  set (prev := delete "@" (drop_empty ts1)). split_and!; [done..| |].
  - intros k Hk Hd. rewrite lookup_delete_ne by done.
    apply option_eq. intros v. rewrite drop_empty_lookup.
    rewrite lookup_union, (fold_keys_undeclared _ _ _ Hd), (left_id None _).
    split; [by intros [? _]|]. intros Hv. split; [done|].
    unfold prev in Hv. rewrite lookup_delete_ne in Hv by done.
    by apply drop_empty_lookup in Hv as [_ ?].
  - intros k Hk. destruct (decide (k = "@")) as [->|Hne].
    + apply lookup_delete_eq.
    + rewrite lookup_delete_ne by done.
      apply drop_empty_lookup_None. right. by exists (VList []).
Qed.

Lemma cumulative_merge_witness :
  let R := Sample.runtime in
  ∃ kvs, Sample.album !! 1%nat = Some (VDict kvs) ∧
    Sample.album_2
    = delete "@" (drop_empty (fold_keys R kvs ∪ Sample.album_1)) ∧
    Sample.album_2 !! "album" = Sample.album_1 !! "album" ∧
    Sample.album_2 !! "genre" = None.
Proof.
  intros R.
  assert (H1 : (items_loop R (_resolve_path R 1 "/music/album.tags") ∅
                  Sample.album).1 !! 0%nat
               = Some (Yielded "/music/01.flac" Sample.album_1))
    by (vm_compute; reflexivity).
  assert (H2 : (items_loop R (_resolve_path R 1 "/music/album.tags") ∅
                  Sample.album).1 !! 1%nat
               = Some (Yielded "/music/02.flac" Sample.album_2))
    by (vm_compute; reflexivity).
  destruct (cumulative_merge _ _ _ _ _ _ _ H1 H2)
    as (kvs & Ho & Hd & Hkeep & Hdel).
  exists kvs. split_and!; [done..| |].
  - apply Hkeep; [done|].
    injection Ho as <-. vm_compute. reflexivity.
  - apply Hdel. injection Ho as <-. vm_compute. reflexivity.
Defined.

(** ** References that cannot be resolved *)

(** C4.  A reference with exactly one ['|'] whose right-hand part is no
    integer makes [_resolve_path] raise [NotImplementedError]; [items] drops
    that entry alone and goes on with the rest of the file, from the merged
    tag set. *)
Theorem unsupported_reference_skipped (R : Runtime) (n : nat) (self : string)
    (ts : gmap string value) (kvs : list (string * value)) (rest : list value)
    (ref base idx : string) :
  let ts' := drop_empty (fold_keys R kvs ∪ ts) in
  let rp := _resolve_path R (S n) self in
  ts' !! "@" = Some (VStr ref) →
  split "|" ref = [base; idx] →
  int_of_str R idx = None →
  rp (VStr ref) = Raise NotImplementedError
  ∧ items_loop R rp ts (VDict kvs :: rest)
    = continue_with (Skipped (delete "@" ts')) (items_loop R rp ts' rest).
Proof.
  intros ts' rp Hr Hs Hi.
  assert (Hrp : rp (VStr ref) = Raise NotImplementedError).
  { unfold rp. rewrite resolve_path_unfold.
    by rewrite (split_reference_unsupported _ _ _ _ Hs Hi). }
  split; [done|]. by eapply items_loop_skip.
Qed.

Lemma unsupported_reference_skipped_witness :
  let R := Sample.runtime in
  let rp := _resolve_path R 1 "/music/x.tags" in
  items_loop R rp ∅
    [VDict [("@", VStr "x.zip|inner.flac"); ("title", VStr "A")];
     VDict [("@", VStr "b.flac")]]
  = ([Skipped {[ "title" := VStr "A" ]};
      Yielded "/music/b.flac" {[ "title" := VStr "A" ]}], Done).
Proof.
  intros R rp.
  destruct (unsupported_reference_skipped R 0 "/music/x.tags" ∅
              [("@", VStr "x.zip|inner.flac"); ("title", VStr "A")]
              [VDict [("@", VStr "b.flac")]]
              "x.zip|inner.flac" "x.zip" "inner.flac")
    as [_ Hl]; [vm_compute; reflexivity..|].
  unfold rp. rewrite Hl. vm_compute. reflexivity.
Defined.

(** C9.  A reference with two or more ['|'] fails at the unpacking of the
    split, with [ValueError]: not the exception that [items] catches, so the
    entry is not skipped and the generator ends there. *)
Theorem many_pipes_abort (R : Runtime) (n : nat) (self : string)
    (ts : gmap string value) (kvs : list (string * value)) (rest : list value)
    (ref : string) :
  let ts' := drop_empty (fold_keys R kvs ∪ ts) in
  let rp := _resolve_path R (S n) self in
  ts' !! "@" = Some (VStr ref) →
  (2 ≤ count_char "|" ref)%nat →
  rp (VStr ref) = Raise ValueError
  ∧ items_loop R rp ts (VDict kvs :: rest) = ([], Raised ValueError).
Proof.
  intros ts' rp Hr Hc.
  assert (Hrp : rp (VStr ref) = Raise ValueError).
  { unfold rp. rewrite resolve_path_unfold.
    by rewrite (split_reference_many _ _ Hc). }
  split; [done|]. by eapply items_loop_raise.
Qed.

Lemma many_pipes_abort_witness :
  let R := Sample.runtime in
  let rp := _resolve_path R 1 "/music/x.tags" in
  rp (VStr "album.tags|1|2") = Raise ValueError
  ∧ items_loop R rp ∅
      [VDict [("@", VStr "album.tags|1|2")]; VDict [("@", VStr "b.flac")]]
    = ([], Raised ValueError).
Proof.
  intros R rp.
  apply (many_pipes_abort R 0 "/music/x.tags" ∅
           [("@", VStr "album.tags|1|2")] [VDict [("@", VStr "b.flac")]]
           "album.tags|1|2").
  - vm_compute. reflexivity.
  - vm_compute. lia.
Defined.

(** C6, as amended.  An indexed reference whose resolved base does not end in
    [.tags] makes [_resolve_path] raise a bare [Exception].  [items] does not
    catch it: the entry is not skipped, the exception leaves the generator
    and the rest of the file is not read. *)
Theorem index_into_other_file_aborts (R : Runtime) (n : nat) (self : string)
    (ts : gmap string value) (kvs : list (string * value)) (rest : list value)
    (ref base idx : string) (k : Z) :
  let ts' := drop_empty (fold_keys R kvs ∪ ts) in
  let rp := _resolve_path R (S n) self in
  ts' !! "@" = Some (VStr ref) →
  split "|" ref = [base; idx] →
  int_of_str R idx = Some k →
  endswith (resolve_from R self base) ".tags" = false →
  rp (VStr ref) = Raise GenericException
  ∧ items_loop R rp ts (VDict kvs :: rest) = ([], Raised GenericException).
Proof.
  intros ts' rp Hr Hs Hi He.
  assert (Hrp : rp (VStr ref) = Raise GenericException).
  { unfold rp. rewrite resolve_path_unfold.
    rewrite (split_reference_indexed _ _ _ _ _ Hs Hi). simpl.
    by rewrite He. }
  split; [done|]. by eapply items_loop_raise.
Qed.

Lemma index_into_other_file_aborts_witness :
  let R := Sample.runtime in
  let rp := _resolve_path R 1 "/music/x.tags" in
  rp (VStr "x.zip|3") = Raise GenericException
  ∧ items_loop R rp ∅
      [VDict [("@", VStr "x.zip|3")]; VDict [("@", VStr "b.flac")]]
    = ([], Raised GenericException).
Proof.
  intros R rp.
  apply (index_into_other_file_aborts R 0 "/music/x.tags" ∅
           [("@", VStr "x.zip|3")] [VDict [("@", VStr "b.flac")]]
           "x.zip|3" "x.zip" "3" 3); vm_compute; reflexivity.
Defined.

(** C6 fails as it is written: the entry ["x.zip|3"] is not skipped and the
    entry after it is not yielded. *)
Lemma index_into_other_file_not_skipped :
  let R := Sample.runtime in
  let rp := _resolve_path R 1 "/music/x.tags" in
  rp (VStr "x.zip|3") ≠ Raise NotImplementedError
  ∧ items_loop R rp ∅
      [VDict [("@", VStr "x.zip|3")]; VDict [("@", VStr "b.flac")]]
    ≠ ([Skipped ∅; Yielded "/music/b.flac" ∅], Done)
  ∧ yielded (items_loop R rp ∅
      [VDict [("@", VStr "x.zip|3")]; VDict [("@", VStr "b.flac")]]).1 = [].
Proof. split_and!; [vm_compute; discriminate..|vm_compute; reflexivity]. Qed.

(** C5, as amended.  An indexed reference into a sidecar file that yields
    fewer pairs than the index makes [_resolve_path] raise: [LookupError]
    when the generator of that file is exhausted, and the generator's own
    exception when it ends by one before it has yielded that many pairs.  In
    both cases the exception is not the one that [items] catches: no path is
    returned, the entry is not skipped, and the generator of the containing
    file ends with that exception, without reading the rest of the file. *)
Theorem index_not_found (R : Runtime) (n : nat) (self : string)
    (ts : gmap string value) (kvs : list (string * value)) (rest : list value)
    (ref base idx : string) (k : Z) :
  let ts' := drop_empty (fold_keys R kvs ∪ ts) in
  let rp := _resolve_path R (S n) self in
  let s := resolve_from R self base in
  ts' !! "@" = Some (VStr ref) →
  split "|" ref = [base; idx] →
  int_of_str R idx = Some k →
  endswith s ".tags" = true →
  (loader_items R n s).2 ≠ Diverged →
  Z.of_nat (length (yielded (loader_items R n s).1)) < k →
  ∃ x, (((loader_items R n s).2 = Done ∧ x = LookupError)
        ∨ (loader_items R n s).2 = Raised x)
    ∧ x ≠ NotImplementedError
    ∧ rp (VStr ref) = Raise x
    ∧ items_loop R rp ts (VDict kvs :: rest) = ([], Raised x).
Proof.
  intros ts' rp s Hr Hs Hi He Hd Hk.
  assert (Hrp : rp (VStr ref)
                = match (loader_items R n s).2 with
                  | Done => Raise LookupError
                  | Raised x => Raise x
                  | Diverged => Diverge
                  end).
  { unfold rp. rewrite resolve_path_unfold.
    rewrite (split_reference_indexed _ _ _ _ _ Hs Hi). simpl.
    fold s. rewrite He. fold (loader_items R n s).
    rewrite nth_item_beyond by lia. by destruct (loader_items R n s).2. }
  pose proof (items_ending R (_resolve_path R n s) s) as Hni.
  fold (loader_items R n s) in Hni.
  destruct (loader_items R n s).2 as [|x|] eqn:Hend; [| |done].
  - exists LookupError. split_and!; [by left|done..|].
    by eapply items_loop_raise.
  - exists x. assert (x ≠ NotImplementedError) by congruence.
    split_and!; [by right|done..|]. by eapply items_loop_raise.
Qed.

Lemma index_not_found_witness :
  let R := Sample.runtime in
  let rp := _resolve_path R 2 "/music/x.tags" in
  rp (VStr "album.tags|3") = Raise LookupError
  ∧ items_loop R rp ∅
      [VDict [("@", VStr "album.tags|3")]; VDict [("@", VStr "b.flac")]]
    = ([], Raised LookupError).
Proof.
  intros R rp.
  destruct (index_not_found R 1 "/music/x.tags" ∅
              [("@", VStr "album.tags|3")] [VDict [("@", VStr "b.flac")]]
              "album.tags|3" "album.tags" "3" 3)
    as (x & Hx & _ & Hrp & Hl);
    [vm_compute; reflexivity..|vm_compute; discriminate|vm_compute; reflexivity|].
  destruct Hx as [[_ ->]|Hx]; [by split|].
  vm_compute in Hx. discriminate Hx.
Defined.

(** C5 fails as it is written: [broken.tags] yields one pair and then ends
    by [AttributeError], at an element that is no object.  The reference
    ["broken.tags|2"] asks for more pairs than the file yields, and its
    resolution fails with that [AttributeError], not with [LookupError]. *)
Lemma index_beyond_a_failing_file :
  let R := Cases.runtime in
  loader_items R 1 "/lib/broken.tags"
  = ([Yielded "/lib/01.flac" ∅], Raised AttributeError)
  ∧ _resolve_path R 2 "/lib/x.tags" (VStr "broken.tags|2")
    = Raise AttributeError
  ∧ _resolve_path R 2 "/lib/x.tags" (VStr "broken.tags|2")
    ≠ Raise LookupError.
Proof.
  split_and!; [vm_compute; reflexivity..|vm_compute; discriminate].
Qed.

(** ** Indexed references *)

(** The round trip of an indexed reference, where no path has a ['|'].  Let
    [s] be the sidecar file that the base of an indexed reference resolves
    to, and let the pair numbered [k] of the pairs that [s] yields carry the
    path [r_path].  [_resolve_path] resolves [r_path] once more, from the
    directory of [s].  When [r_path] has no ['|'] and resolving it again
    gives [r_path], the indexed reference resolves to [r_path], which is what
    the entry's own reference resolves to from the directory of [s]; this
    holds through any depth of indexed references, for every budget that is
    large enough, and [r_path] is the resolved path of a direct reference. *)
Theorem indexed_reference_roundtrip (R : Runtime) (n : nat)
    (self ref base idx : string) (k : Z)
    (r_path : string) (r_data : gmap string value) :
  let s := resolve_from R self base in
  split "|" ref = [base; idx] →
  int_of_str R idx = Some k →
  endswith s ".tags" = true →
  1 ≤ k →
  yielded (loader_items R n s).1 !! Z.to_nat (k - 1) = Some (r_path, r_data) →
  contains_char "|" r_path = false →
  resolve_from R s r_path = r_path →
  ∃ ts' own,
    ts' !! "@" = Some own ∧ r_data = delete "@" ts' ∧
    (∀ m, (n ≤ m)%nat → _resolve_path R m s own = Ok r_path) ∧
    (∀ m, (n < m)%nat → _resolve_path R m self (VStr ref) = Ok r_path) ∧
    ∃ s_end ref_end,
      contains_char "|" ref_end = false ∧
      r_path = resolve_from R s_end ref_end.
Proof.
  intros s Hs Hi He Hk Hy Hc Hfix.
  pose proof Hy as Hin. apply list_elem_of_lookup_2 in Hin.
  apply items_yielded in Hin as (ts' & own & Hown & Hdata & Hrp).
  exists ts', own. split_and!; [done..| | |].
  - intros m Hm. rewrite (resolve_path_mono R n m) by (done || congruence).
    done.
  - intros m Hm.
    assert (Hstep : _resolve_path R (S n) self (VStr ref) = Ok r_path).
    { rewrite resolve_path_unfold.
      rewrite (split_reference_indexed _ _ _ _ _ Hs Hi). simpl.
      fold s. rewrite He. fold (loader_items R n s).
      rewrite (nth_item_lookup _ _ _ _ _ Hk Hy). simpl.
      destruct n as [|n]; [done|].
      rewrite resolve_path_unfold, (split_reference_direct _ _ Hc). simpl.
      by rewrite Hfix. }
    rewrite (resolve_path_mono R (S n) m) by (lia || congruence). done.
  - by eapply resolve_path_direct_end.
Qed.

Lemma indexed_reference_roundtrip_witness :
  _resolve_path Sample.runtime 3 "/music/top.tags" (VStr "list.tags|1")
  = Ok "/music/02.flac".
Proof.
  destruct (indexed_reference_roundtrip Sample.runtime 2
              "/music/top.tags" "list.tags|1" "list.tags" "1" 1
              "/music/02.flac" ∅)
    as (ts' & own & _ & _ & _ & Hself & _);
    [vm_compute; reflexivity | vm_compute; reflexivity
    |vm_compute; reflexivity | lia | vm_compute; reflexivity
    |vm_compute; reflexivity | vm_compute; reflexivity |].
  apply Hself. lia.
Defined.

(** C3, at an input where the code departs from it.  Below the directory
    [/a|b], the first pair that [s.tags] yields carries the path
    [/a|b/x.flac], which is what the entry's own reference [x.flac] resolves
    to from the directory of [s.tags].  The indexed reference ["s.tags|1"]
    does not resolve to that path: [_resolve_path] hands the resolved path to
    itself as if it were a reference, splits it at the ['|'] of the directory
    name and raises [NotImplementedError], and [items] drops the entry of
    [t.tags] that holds the reference.  By [resolve_path_mono] no larger
    budget changes this. *)
Lemma indexed_reference_reparsed :
  let R := Sample.runtime in
  yielded (loader_items R 1 "/a|b/s.tags").1 = [("/a|b/x.flac", ∅)]
  ∧ _resolve_path R 1 "/a|b/s.tags" (VStr "x.flac") = Ok "/a|b/x.flac"
  ∧ _resolve_path R 2 "/a|b/t.tags" (VStr "s.tags|1")
    = Raise NotImplementedError
  ∧ loader_items R 2 "/a|b/t.tags" = ([Skipped ∅], Done).
Proof. split_and!; vm_compute; reflexivity. Qed.

(** ** Converters *)

Lemma get_loop_first (decode : value → res value) (data : gmap string value)
    (pre : list string) (t : string) (post : list string) (v : value) :
  (∀ t', t' ∈ pre → data !! t' = None) → data !! t = Some v →
  get_loop decode (pre ++ t :: post) data = decode v.
Proof.
  intros Hpre Ht. induction pre as [|t' pre IH]; simpl.
  - by rewrite Ht.
  - rewrite (Hpre t') by constructor.
    apply IH. intros t'' Hin. apply Hpre. by constructor.
Qed.

Lemma get_loop_absent (decode : value → res value) (data : gmap string value)
    (tags : list string) :
  (∀ t, t ∈ tags → data !! t = None) → get_loop decode tags data = Ok VNone.
Proof.
  induction tags as [|t tags IH]; intros Hno; simpl; [done|].
  rewrite (Hno t) by constructor.
  apply IH. intros t' Hin. apply Hno. by constructor.
Qed.

(** [get] either finds no alias or decodes the value of one. *)
Lemma get_loop_cases (decode : value → res value) (data : gmap string value)
    (tags : list string) :
  ((∀ t, t ∈ tags → data !! t = None) ∧ get_loop decode tags data = Ok VNone)
  ∨ ∃ t v, t ∈ tags ∧ data !! t = Some v ∧ get_loop decode tags data = decode v.
Proof.
  induction tags as [|t tags IH]; simpl.
  - left. split; [|done]. by intros t ?%elem_of_nil.
  - destruct (data !! t) as [v|] eqn:Ht.
    + right. exists t, v. split_and!; [constructor|done..].
    + destruct IH as [[Hno Hg]|(t' & v & Hin & Ht' & Hg)].
      * left. split; [|done]. intros t' [->|Hin]%elem_of_cons; auto.
      * right. exists t', v. split_and!; [by constructor|done..].
Qed.

(** C8.  [get] returns the decoded value of the first alias, in the order of
    the definition, that the tag set has, and [None] when it has none of
    them.  With both [track="1"] and [tracknumber="9"], the field [track] is
    the integer 1. *)
Theorem first_alias_wins (R : Runtime) (c : converter)
    (data : gmap string value) :
  (∀ pre t post v,
     _tags c = (pre ++ t :: post)%list →
     (∀ t', t' ∈ pre → data !! t' = None) →
     data !! t = Some v →
     get c data = decode c v)
  ∧ ((∀ t, t ∈ _tags c → data !! t = None) → get c data = Ok VNone)
  ∧ (int_of_str R "1" = Some 1 →
     data !! "track" = Some (VStr "1") →
     data !! "tracknumber" = Some (VStr "9") →
     tag_field R "track" data = Ok (VInt 1)).
Proof.
  split_and!.
  - intros pre t post v Htags Hpre Ht. unfold get. rewrite Htags.
    by apply get_loop_first.
  - intros Hno. by apply get_loop_absent.
  - intros Hint Ht _. unfold tag_field. simpl. unfold get. simpl.
    rewrite Ht. simpl. by rewrite Hint.
Qed.

Lemma first_alias_wins_witness :
  let data : gmap string value :=
    {[ "track" := VStr "1"; "tracknumber" := VStr "9" ]} in
  tag_field Sample.runtime "track" data = Ok (VInt 1)
  ∧ get (IntConverter Sample.runtime ["track"; "tracknumber"]) data
    = Ok (VInt 1)
  ∧ get (IntConverter Sample.runtime ["disc"; "discnumber"]) data = Ok VNone.
Proof.
  intros data.
  destruct (first_alias_wins Sample.runtime
              (IntConverter Sample.runtime ["track"; "tracknumber"]) data)
    as (Hfirst & _ & Htrack).
  destruct (first_alias_wins Sample.runtime
              (IntConverter Sample.runtime ["disc"; "discnumber"]) data)
    as (_ & Hnone & _).
  split_and!.
  - apply Htrack; vm_compute; reflexivity.
  - rewrite (Hfirst [] "track" ["tracknumber"] (VStr "1") eq_refl).
    + vm_compute. reflexivity.
    + by intros t' ?%elem_of_nil.
    + vm_compute. reflexivity.
  - apply Hnone. intros t Hin.
    repeat (apply elem_of_cons in Hin as [->|Hin]; [vm_compute; reflexivity|]).
    by apply elem_of_nil in Hin.
Defined.

(** C7.  The raw date ["1999"] decodes to an [MTagDate] of the year 1999 that
    is marked as a year only: the dependent field [year] is 1999, [month] and
    [day] are [None].  The raw date ["1999-05-03"] decodes to an [MTagDate]
    marked as a full date: [month] is 5, [day] is 3, and [DateHack] gives the
    plain date 1999-05-03.  The runtime is asked for [int] and for
    [dateutil.parser.parse] on these two strings. *)
Theorem date_precision (R : Runtime) (data1 data2 values : gmap string value) :
  int_of_str R "1999" = Some 1999 →
  int_of_str R "1999-05-03" = None →
  dateutil_parse R (VStr "1999-05-03") = Ok (1999, 5, 3) →
  data1 !! "date" = Some (VStr "1999") →
  data2 !! "date" = Some (VStr "1999-05-03") →
  let year_only := VMTagDate 1999 1 1 false in
  let full := VMTagDate 1999 5 3 true in
  (tag_field R "date" data1 = Ok year_only
   ∧ dependent_field "year" data1 (<["date" := year_only]> values)
     = Ok (VInt 1999)
   ∧ dependent_field "month" data1 (<["date" := year_only]> values) = Ok VNone
   ∧ dependent_field "day" data1 (<["date" := year_only]> values) = Ok VNone)
  ∧ (tag_field R "date" data2 = Ok full
     ∧ dependent_field "year" data2 (<["date" := full]> values) = Ok (VInt 1999)
     ∧ dependent_field "month" data2 (<["date" := full]> values) = Ok (VInt 5)
     ∧ dependent_field "day" data2 (<["date" := full]> values) = Ok (VInt 3)
     ∧ dependent_field "date" data2 (<["date" := full]> values)
       = Ok (VDate 1999 5 3)).
Proof.
  intros Hy Hn Hp H1 H2 year_only full.
  assert (Hdep : ∀ name data v,
            dependent_field name data (<["date" := v]> values)
            = match DEPENDENT_TAGS_lookup name with
              | Some c => if String.eqb (dep c) "date" then transform c v
                          else dependent_get c data (<["date" := v]> values)
              | None => Raise KeyError
              end).
  { intros name data v. unfold dependent_field.
    destruct (DEPENDENT_TAGS_lookup name) as [c|]; [|done].
    destruct (String.eqb_spec (dep c) "date") as [Heq|]; [|done].
    unfold dependent_get. by rewrite Heq, lookup_insert_eq. }
  split.
  - split_and!; [|by rewrite Hdep..].
    unfold tag_field. simpl. unfold get. simpl. rewrite H1. simpl.
    by rewrite Hy.
  - split_and!; [|by rewrite Hdep..].
    unfold tag_field. simpl. unfold get. simpl. rewrite H2. simpl.
    by rewrite Hn, Hp.
Qed.

Lemma date_precision_witness :
  let R := Sample.runtime in
  let data1 : gmap string value := {[ "date" := VStr "1999" ]} in
  let data2 : gmap string value := {[ "date" := VStr "1999-05-03" ]} in
  (tag_field R "date" data1 = Ok (VMTagDate 1999 1 1 false)
   ∧ dependent_field "month" data1 {[ "date" := VMTagDate 1999 1 1 false ]}
     = Ok VNone)
  ∧ (tag_field R "date" data2 = Ok (VMTagDate 1999 5 3 true)
     ∧ dependent_field "date" data2 {[ "date" := VMTagDate 1999 5 3 true ]}
       = Ok (VDate 1999 5 3)).
Proof.
  intros R data1 data2.
  destruct (date_precision R data1 data2 ∅)
    as [(H1 & _ & H1m & _) (H2 & _ & _ & _ & H2d)]; [vm_compute; reflexivity..|].
  split; split; assumption.
Defined.

(** ** Yielded tag sets and the list decode rule *)

Lemma items_loop_values (R : Runtime) (rp : value → res string)
    (obj : list value) (ts : gmap string value)
    (path : string) (data : gmap string value) (k : string) (v : value) :
  (path, data) ∈ yielded (items_loop R rp ts obj).1 →
  data !! k = Some v → is_empty_list v = false.
Proof.
  revert ts. induction obj as [|item rest IH]; intros ts; simpl.
  { by intros ?%elem_of_nil. }
  destruct item; simpl; try by intros ?%elem_of_nil.
  set (ts' := drop_empty _).
  destruct (ts' !! "@") as [ref|]; [|by intros ?%elem_of_nil].
  destruct (rp ref) as [p|[]|]; simpl;
    try (by intros ?%elem_of_nil); [|by apply IH].
  intros [[= -> ->]|Hin]%elem_of_cons; [|by eapply IH].
  intros Hk. apply lookup_delete_Some in Hk as [_ Hk].
  by apply drop_empty_lookup in Hk as [_ ?].
Qed.

(** C10.  No tag set that [items] yields has the empty list as a value: it
    was deleted before the yield.  So [ListConverter.get] never raises on a
    yielded tag set: the field is [None] because the tag set has none of the
    aliases, or it is the first element of the list under an alias, or the
    value itself when that is no list. *)
Theorem yielded_lists_decode (R : Runtime) (rp : value → res string)
    (self path : string) (data : gmap string value) (tags : list string) :
  (path, data) ∈ yielded (items R rp self).1 →
  (∀ k v, data !! k = Some v → v ≠ VList [])
  ∧ (((∀ t, t ∈ tags → data !! t = None)
      ∧ get (ListConverter tags) data = Ok VNone)
     ∨ ∃ t v x, t ∈ tags ∧ data !! t = Some v
         ∧ get (ListConverter tags) data = Ok x
         ∧ match v with
           | VList l => ∃ l', l = x :: l'
           | _ => x = v
           end).
Proof.
  intros Hin.
  assert (Hne : ∀ k v, data !! k = Some v → is_empty_list v = false).
  { intros k v. revert Hin. unfold items.
    destruct (iterate _) as [l| |]; simpl; [|by intros ?%elem_of_nil..].
    apply items_loop_values. }
  split.
  - intros k v Hk ->. by specialize (Hne _ _ Hk).
  - destruct (get_loop_cases (decode (ListConverter tags)) data tags)
      as [[Hno Hg]|(t & v & Ht & Hv & Hg)]; [by left|right].
    specialize (Hne _ _ Hv). unfold get. simpl in *. rewrite Hg.
    destruct v as [| | | | |[|x l]| | |] eqn:Ev; try done;
      try (by exists t, v, v; subst v).
    exists t, v, x. subst v. split_and!; [done..|]. by exists l.
Qed.

Lemma yielded_lists_decode_witness :
  let R := Sample.runtime in
  (∀ k v, Sample.album_1 !! k = Some v → v ≠ VList [])
  ∧ ∃ x, get (ListConverter ["genres"; "genre"]) Sample.album_1 = Ok x.
Proof.
  intros R.
  destruct (yielded_lists_decode R (_resolve_path R 1 "/music/album.tags")
              "/music/album.tags" "/music/01.flac" Sample.album_1
              ["genres"; "genre"])
    as [Hne [[_ Hg]|(t & v & x & _ & _ & Hg & _)]].
  - replace (items R _ _).1
      with [Yielded "/music/01.flac" Sample.album_1;
            Yielded "/music/02.flac" Sample.album_2]
      by (vm_compute; reflexivity).
    simpl. constructor.
  - split; [exact Hne|by exists VNone].
  - split; [exact Hne|by exists x].
Defined.


(** * Further properties of the loader *)

Section LoaderMore.
Variable R : Runtime.
Implicit Types (rp : value → res string) (ts : gmap string value).

Lemma items_loop_not_dict rp ts item rest :
  (∀ kvs, item ≠ VDict kvs) →
  items_loop R rp ts (item :: rest) = ([], Raised AttributeError).
Proof. intros Hn. simpl. destruct item; try done. by destruct (Hn kvs). Qed.

(** The turns made on a prefix of the entries are the first turns made on
    all of them. *)
Lemma items_loop_prefix rp (pre post : list value) : ∀ ts,
  ∃ l e, items_loop R rp ts (pre ++ post)%list
         = (((items_loop R rp ts pre).1 ++ l)%list, e).
Proof.
  induction pre as [|item pre IH]; intros ts.
  - simpl. destruct (items_loop R rp ts post) as [l e]. by exists l, e.
  - rewrite <- app_comm_cons. cbn [items_loop].
    destruct (_update R ts item) as [ts'| |]; [|by exists [], (Raised e)
                                                |by exists [], Diverged].
    destruct (ts' !! "@") as [ref|]; [|by exists [], (Raised KeyError)].
    destruct (rp ref) as [path|x|]; [| |by exists [], Diverged].
    + destruct (IH ts') as (l & e & Heq). exists l, e. rewrite Heq. reflexivity.
    + destruct x; try (by eexists [], _).
      destruct (IH ts') as (l & e & Heq). exists l, e. rewrite Heq. reflexivity.
Qed.

Lemma nth_item_prefix (its l : list iteration) (e e' : ending) :
  ∀ (i sub : Z) pd,
    nth_item i sub its e = Ok pd → nth_item i sub (its ++ l)%list e' = Ok pd.
Proof.
  induction its as [|[d|p d] its IH]; intros i sub pd; simpl.
  - by destruct e.
  - apply IH.
  - destruct (i =? sub); [done|apply IH].
Qed.

(** The run on [pre ++ post], when the run on [pre] is exhausted: the
    turns of [pre], then the run on [post] from the state [pre] leaves. *)
Lemma items_loop_app_done rp (pre : list value) : ∀ ts its,
  items_loop R rp ts pre = (its, Done) →
  ∃ ts', ∀ post,
    items_loop R rp ts (pre ++ post)%list
    = ((its ++ (items_loop R rp ts' post).1)%list,
       (items_loop R rp ts' post).2).
Proof.
  induction pre as [|item pre IH]; intros ts its.
  - intros [= <-]. exists ts. intros post. simpl.
    by destruct (items_loop R rp ts post).
  - cbn [items_loop].
    destruct (_update R ts item) as [ts1| |] eqn:Hu; [|done..].
    destruct (ts1 !! "@") as [ref|] eqn:Hr; [|done].
    assert (Hgo : ∀ it, continue_with it (items_loop R rp ts1 pre) = (its, Done) →
              ∃ ts', ∀ post,
                continue_with it (items_loop R rp ts1 (pre ++ post)%list)
                = ((its ++ (items_loop R rp ts' post).1)%list,
                   (items_loop R rp ts' post).2)).
    { intros it. destruct (items_loop R rp ts1 pre) as [its0 e0] eqn:Hl.
      intros [= <- ->]. destruct (IH _ _ Hl) as [ts' Hts'].
      exists ts'. intros post. by rewrite Hts'. }
    destruct (rp ref) as [path|x|] eqn:Hp; [| |done].
    + intros Hc. destruct (Hgo _ Hc) as [ts' Hts']. exists ts'.
      intros post. rewrite <- app_comm_cons.
      rewrite (items_loop_yield R _ _ _ _ _ _ _ Hu Hr Hp). apply Hts'.
    + destruct x; try done.
      intros Hc. destruct (Hgo _ Hc) as [ts' Hts']. exists ts'.
      intros post. rewrite <- app_comm_cons.
      rewrite (items_loop_skip R _ _ _ _ _ _ Hu Hr Hp). apply Hts'.
Qed.

(** The run on [pre ++ post], when the run on [pre] ends by an exception or
    out of budget: [post] is not read. *)
Lemma items_loop_app_abort rp (pre post : list value) : ∀ ts,
  (items_loop R rp ts pre).2 ≠ Done →
  items_loop R rp ts (pre ++ post)%list = items_loop R rp ts pre.
Proof.
  induction pre as [|item pre IH]; intros ts; [done|].
  rewrite <- app_comm_cons. cbn [items_loop].
  destruct (_update R ts item) as [ts1| |]; [|done..].
  destruct (ts1 !! "@") as [ref|]; [|done].
  destruct (rp ref) as [path|x|]; [| |done].
  - simpl. intros He. by rewrite (IH _ He).
  - destruct x; try done. simpl. intros He. by rewrite (IH _ He).
Qed.

Lemma fold_keys_last (pre post : list (string * value)) (k0 : string)
    (v : value) :
  declares R (casefold R k0) post = false →
  fold_keys R (pre ++ (k0, v) :: post)%list !! casefold R k0 = Some v.
Proof.
  intros Hd. unfold fold_keys. rewrite foldl_app. simpl.
  rewrite (fold_keys_acc _ _ _ _ Hd). apply lookup_insert_eq.
Qed.

(** [fold_keys] reads the keys of the entry through [casefold] only. *)
Lemma fold_keys_folded (kvs kvs' : list (string * value)) :
  map (λ kv, (casefold R kv.1, kv.2)) kvs
  = map (λ kv, (casefold R kv.1, kv.2)) kvs' →
  fold_keys R kvs = fold_keys R kvs'.
Proof.
  unfold fold_keys. generalize (∅ : gmap string value).
  revert kvs'. induction kvs as [|[k v] kvs IH]; intros [|[k' v'] kvs'] m;
    simpl; try done.
  intros [= Hk -> Hrest]. rewrite Hk. by apply IH.
Qed.

(** The keys of the merged tag set are folded keys, when those of the
    running tag set are. *)
Lemma fold_keys_image (kvs : list (string * value)) (k : string) (v : value) :
  ∀ m : gmap string value,
    foldl (λ m kv, <[casefold R kv.1 := kv.2]> m) m kvs !! k = Some v →
    m !! k = Some v ∨ ∃ k0, k = casefold R k0.
Proof.
  induction kvs as [|[k1 v1] kvs IH]; intros m; simpl; [by left|].
  intros [Hm|Hk]%IH; [|by right].
  destruct (decide (casefold R k1 = k)) as [<-|Hne]; [right; by eexists|].
  left. by rewrite lookup_insert_ne in Hm.
Qed.

Lemma items_loop_keys rp (obj : list value) : ∀ ts path data k v,
  (∀ k v, ts !! k = Some v → ∃ k0, k = casefold R k0) →
  (path, data) ∈ yielded (items_loop R rp ts obj).1 →
  data !! k = Some v → ∃ k0, k = casefold R k0.
Proof.
  induction obj as [|item rest IH]; intros ts path data k v Hts; simpl.
  { by intros ?%elem_of_nil. }
  destruct item; simpl; try by intros ?%elem_of_nil.
  set (ts' := drop_empty _).
  assert (Hts' : ∀ k v, ts' !! k = Some v → ∃ k0, k = casefold R k0).
  { intros k1 v1 [Hk _]%drop_empty_lookup.
    apply lookup_union_Some_raw in Hk as [Hk|[_ Hk]]; [|by eapply Hts].
    apply fold_keys_image in Hk as [Hk|?]; [|done].
    by rewrite lookup_empty in Hk. }
  destruct (ts' !! "@") as [ref|]; [|by intros ?%elem_of_nil].
  destruct (rp ref) as [p|[]|]; simpl;
    try (by intros ?%elem_of_nil); [|by apply IH].
  intros [[= -> ->]|Hin]%elem_of_cons; [|by eapply IH].
  intros [_ Hk]%lookup_delete_Some. by eapply Hts'.
Qed.

End LoaderMore.

(** ** Files that cannot be read as an array of objects *)



(** X2.  An array element that is no object ends the generator with
    [AttributeError] at that element: the pairs of the elements before it
    were yielded, and no element after it is read. *)
Theorem non_object_element_aborts (R : Runtime) (rp : value → res string)
    (ts : gmap string value) (pre post : list value) (item : value)
    (its : list iteration) :
  items_loop R rp ts pre = (its, Done) →
  (∀ kvs, item ≠ VDict kvs) →
  items_loop R rp ts (pre ++ item :: post)%list = (its, Raised AttributeError).
Proof.
  intros Hpre Hitem. destruct (items_loop_app_done R rp _ _ _ Hpre) as [ts' ->].
  rewrite (items_loop_not_dict R rp ts' item post Hitem). simpl.
  by rewrite app_nil_r.
Qed.

Lemma non_object_element_aborts_witness :
  let R := Cases.runtime in
  loader_items R 1 "/lib/broken.tags"
  = ([Yielded "/lib/01.flac" ∅], Raised AttributeError).
Proof.
  intros R.
  apply (non_object_element_aborts R (_resolve_path R 1 "/lib/broken.tags") ∅
           [VDict [("@", VStr "01.flac")]] [] (VInt 7)).
  - vm_compute. reflexivity.
  - intros kvs. discriminate.
Defined.

(** X3.  Once the generator has ended by an exception, nothing that follows
    in the file is read: the run on a longer array is the run on the part
    that failed. *)
Theorem abort_is_final (R : Runtime) (rp : value → res string)
    (ts : gmap string value) (pre post : list value) (x : exn) :
  (items_loop R rp ts pre).2 = Raised x →
  items_loop R rp ts (pre ++ post)%list = items_loop R rp ts pre.
Proof.
  intros He. apply items_loop_app_abort. by rewrite He.
Qed.

Lemma abort_is_final_witness :
  let R := Cases.runtime in
  let rp := _resolve_path R 1 "/lib/x.tags" in
  items_loop R rp ∅ (Cases.broken_tail ++ Cases.plain)%list
  = items_loop R rp ∅ Cases.broken_tail.
Proof.
  intros R rp.
  apply (abort_is_final R rp ∅ Cases.broken_tail Cases.plain AttributeError).
  vm_compute. reflexivity.
Defined.

(** ** Case folding of the keys *)

(** X4.  Two arrays whose objects differ only in the spelling of keys that
    fold to the same text are read alike: the generator makes the same turns
    on both. *)
Theorem key_case_is_not_seen (R : Runtime) (rp : value → res string)
    (obj obj' : list value) :
  Forall2 (λ a b, a = b ∨ ∃ kvs kvs',
             a = VDict kvs ∧ b = VDict kvs' ∧
             map (λ kv, (casefold R kv.1, kv.2)) kvs
             = map (λ kv, (casefold R kv.1, kv.2)) kvs') obj obj' →
  ∀ ts, items_loop R rp ts obj = items_loop R rp ts obj'.
Proof.
  induction 1 as [|a b obj obj' Hab _ IH]; intros ts; [done|].
  assert (Hu : _update R ts a = _update R ts b).
  { destruct Hab as [->|(kvs & kvs' & -> & -> & Hm)]; [done|].
    simpl. by rewrite (fold_keys_folded R _ _ Hm). }
  cbn [items_loop]. rewrite Hu.
  destruct (_update R ts b) as [ts'| |]; [|done..].
  destruct (ts' !! "@") as [ref|]; [|done].
  destruct (rp ref) as [path|[]|]; by rewrite ?IH.
Qed.

Lemma key_case_is_not_seen_witness :
  let R := Cases.runtime in
  let rp := _resolve_path R 1 "/lib/plain.tags" in
  items_loop R rp ∅ Cases.plain = items_loop R rp ∅ Cases.plain_upper.
Proof.
  intros R rp.
  apply (key_case_is_not_seen R rp Cases.plain Cases.plain_upper).
  unfold Cases.plain, Cases.plain_upper.
  constructor; [|constructor; [|constructor]];
    right; eexists _, _; (split_and!; [reflexivity..|]);
    vm_compute; reflexivity.
Defined.

(** X5.  Every key of a tag set that a loader yields is a folded key. *)
Theorem yielded_keys_are_folded (R : Runtime) (rp : value → res string)
    (self path : string) (data : gmap string value) (k : string) (v : value) :
  (path, data) ∈ yielded (items R rp self).1 →
  data !! k = Some v →
  ∃ k0, k = casefold R k0.
Proof.
  unfold items. destruct (iterate _) as [l| |]; simpl;
    [|by intros ?%elem_of_nil..].
  apply items_loop_keys. intros k1 v1. by rewrite lookup_empty.
Qed.

Lemma yielded_keys_are_folded_witness :
  ∃ k0, "title" = Sample.ascii_casefold k0.
Proof.
  apply (yielded_keys_are_folded Cases.runtime
           (_resolve_path Cases.runtime 1 "/lib/plain.tags")
           "/lib/plain.tags" "/lib/02.flac"
           {[ "artist" := VStr "Y"; "title" := VStr "T" ]} "title" (VStr "T")).
  - replace (items _ _ _).1
      with [Yielded "/lib/01.flac" {[ "artist" := VStr "Y" ]};
            Yielded "/lib/02.flac"
              {[ "artist" := VStr "Y"; "title" := VStr "T" ]}]
      by (vm_compute; reflexivity).
    simpl. apply elem_of_cons. right. apply elem_of_cons. by left.
  - vm_compute. reflexivity.
Defined.

(** X6.  Within one entry the last key that folds to a text decides: the
    merged tag set holds its value under the folded key, whatever the running
    tag set and the keys before it held, and holds no such key when that
    value is the empty list. *)
Theorem last_spelling_wins (R : Runtime) (ts : gmap string value)
    (pre post : list (string * value)) (k0 : string) (v : value) :
  declares R (casefold R k0) post = false →
  _update R ts (VDict (pre ++ (k0, v) :: post)%list)
  = Ok (drop_empty (fold_keys R (pre ++ (k0, v) :: post)%list ∪ ts))
  ∧ drop_empty (fold_keys R (pre ++ (k0, v) :: post)%list ∪ ts)
      !! casefold R k0
    = (if is_empty_list v then None else Some v).
Proof.
  intros Hd. split; [done|].
  pose proof (fold_keys_last R pre post k0 v Hd) as Hk.
  destruct (is_empty_list v) eqn:He.
  - apply drop_empty_lookup_None. right. exists v.
    by rewrite lookup_union, Hk, union_Some_l.
  - apply drop_empty_lookup. by rewrite lookup_union, Hk, union_Some_l.
Qed.

Lemma last_spelling_wins_witness :
  let R := Cases.runtime in
  drop_empty (fold_keys R [("@", VStr "01.flac"); ("Artist", VStr "X");
                           ("artist", VStr "Y")]
              ∪ {[ "artist" := VStr "Z" ]}) !! "artist"
  = Some (VStr "Y").
Proof.
  intros R.
  apply (last_spelling_wins R {[ "artist" := VStr "Z" ]}
           [("@", VStr "01.flac"); ("Artist", VStr "X")] []
           "artist" (VStr "Y")).
  reflexivity.
Defined.

(** ** More on reference resolution *)



(** X8.  The search for the pair numbered [sub] reads the generator no
    further than that pair: whatever follows the entries that produced it,
    entries that raise included, the search returns the same pair. *)
Theorem selection_ignores_the_tail (R : Runtime) (rp : value → res string)
    (ts : gmap string value) (pre post : list value) (sub : Z)
    (pd : string * gmap string value) :
  nth_item 1 sub (items_loop R rp ts pre).1 (items_loop R rp ts pre).2 = Ok pd →
  nth_item 1 sub (items_loop R rp ts (pre ++ post)%list).1
                 (items_loop R rp ts (pre ++ post)%list).2 = Ok pd.
Proof.
  intros Hn. destruct (items_loop_prefix R rp pre post ts) as (l & e & ->).
  simpl. by eapply nth_item_prefix.
Qed.

Lemma selection_ignores_the_tail_witness :
  let R := Cases.runtime in
  let rp := _resolve_path R 1 "/lib/plain.tags" in
  nth_item 1 2 (items_loop R rp ∅ (Cases.plain ++ Cases.broken_tail)%list).1
               (items_loop R rp ∅ (Cases.plain ++ Cases.broken_tail)%list).2
  = Ok ("/lib/02.flac", {[ "artist" := VStr "Y"; "title" := VStr "T" ]}).
Proof.
  intros R rp.
  apply (selection_ignores_the_tail R rp ∅ Cases.plain Cases.broken_tail).
  vm_compute. reflexivity.
Defined.

(** X9.  There is no guard against a reference chain that comes back to
    itself.  When the first entry of a sidecar file is an indexed reference
    to the first entry of that same file, no depth of recursion resolves it:
    the resolution returns no path and raises none of the program's
    exceptions, and the generator of the file never yields. *)
Theorem self_reference_never_resolves (R : Runtime) (s : string)
    (kvs : list (string * value)) (rest : list value)
    (ref base idx : string) :
  load_json R s = Some (VList (VDict kvs :: rest)) →
  fold_keys R kvs !! "@" = Some (VStr ref) →
  split "|" ref = [base; idx] →
  int_of_str R idx = Some 1 →
  resolve_from R s base = s →
  endswith s ".tags" = true →
  ∀ n, _resolve_path R n s (VStr ref) = Diverge
       ∧ loader_items R n s = ([], Diverged).
Proof.
  intros Hload Hat Hs Hi Hbase He.
  assert (Hitems : ∀ n, _resolve_path R n s (VStr ref) = Diverge →
                        loader_items R n s = ([], Diverged)).
  { intros n Hn. unfold loader_items, items. rewrite Hload. simpl.
    assert (Hr : drop_empty (fold_keys R kvs ∪ ∅) !! "@" = Some (VStr ref)).
    { apply drop_empty_lookup. by rewrite lookup_union, Hat, union_Some_l. }
    by rewrite Hr, Hn. }
  induction n as [|n [IHr IHl]].
  - split; [done|by apply Hitems].
  - assert (Hn : _resolve_path R (S n) s (VStr ref) = Diverge).
    { rewrite resolve_path_unfold.
      rewrite (split_reference_indexed _ _ _ _ _ Hs Hi). simpl.
      rewrite Hbase, He. fold (loader_items R n s). by rewrite IHl. }
    split; [done|by apply Hitems].
Qed.

Lemma self_reference_never_resolves_witness :
  _resolve_path Cases.runtime 40 "/loop/a.tags" (VStr "a.tags|1") = Diverge
  ∧ loader_items Cases.runtime 40 "/loop/a.tags" = ([], Diverged).
Proof.
  apply (self_reference_never_resolves Cases.runtime "/loop/a.tags"
           [("@", VStr "a.tags|1")] [] "a.tags|1" "a.tags" "1");
    vm_compute; reflexivity.
Defined.

(** X10.  [NotImplementedError] never leaves the generator: whatever the
    file holds, [items] ends exhausted or by another exception. *)
Theorem unsupported_never_escapes (R : Runtime) (n : nat) (self : string)
    (rp : value → res string) :
  (items R rp self).2 ≠ Raised NotImplementedError
  ∧ (loader_items R n self).2 ≠ Raised NotImplementedError.
Proof. split; apply items_ending. Qed.



(** * Further properties of the converters *)

(** ** Dates *)

(** X13.  What [DateConverter] decodes is an [MTagDate].  One that is marked
    as a year only has month 1 and day 1 and a year from 1 to 9999, the
    integer value of the raw tag; one that is marked as a full date is what
    [dateutil] parsed. *)
Theorem date_decode_shape (R : Runtime) (tags : list string) (data v : value) :
  decode (DateConverter R tags) data = Ok v →
  ∃ year month day flag,
    v = VMTagDate year month day flag
    ∧ if flag then dateutil_parse R data = Ok (year, month, day)
      else month = 1 ∧ day = 1 ∧ 1 ≤ year ≤ 9999 ∧ py_int R data = Ok year.
Proof.
  simpl. destruct (py_int R data) as [y|x|] eqn:Hy; simpl.
  - unfold MTagDate_of_year.
    destruct ((1 <=? y) && (y <=? 9999)) eqn:Hr.
    + intros [= <-]. exists y, 1, 1, false. split; [done|]. split_and!; try done; lia.
    + destruct ((- 2 ^ 31 <=? y) && (y <? 2 ^ 31)); [|done].
      destruct (dateutil_parse R data) as [[[y' m'] d']| |]; simpl; [|done..].
      intros [= <-]. by exists y', m', d', true.
  - destruct x; try done.
    destruct (dateutil_parse R data) as [[[y' m'] d']| |]; simpl; [|done..].
    intros [= <-]. by exists y', m', d', true.
  - done.
Qed.

Lemma date_decode_shape_witness :
  ∃ year month day flag,
    VMTagDate 1999 1 1 false = VMTagDate year month day flag
    ∧ if flag
      then dateutil_parse Sample.runtime (VInt 1999) = Ok (year, month, day)
      else month = 1 ∧ day = 1 ∧ 1 ≤ year ≤ 9999
           ∧ py_int Sample.runtime (VInt 1999) = Ok year.
Proof.
  apply (date_decode_shape Sample.runtime ["date"; "year"] (VInt 1999)).
  reflexivity.
Defined.

(** X14.  An integer year outside 1 to 9999 is no year-only date.  When it
    fits a C [int], [MTagDate] raises [ValueError] and the raw value is
    handed to [dateutil], whose result, or exception, is the result; when it
    does not fit, [OverflowError] leaves [decode]. *)
Theorem date_year_out_of_range (R : Runtime) (tags : list string)
    (data : value) (year : Z) :
  py_int R data = Ok year →
  year < 1 ∨ 9999 < year →
  decode (DateConverter R tags) data
  = if (- 2 ^ 31 <=? year) && (year <? 2 ^ 31)
    then '(y, m, d) ← dateutil_parse R data; Ok (VMTagDate y m d true)
    else Raise OverflowError.
Proof.
  intros Hy Hr. simpl. rewrite Hy. simpl. unfold MTagDate_of_year.
  replace ((1 <=? year) && (year <=? 9999)) with false by lia.
  by destruct ((- 2 ^ 31 <=? year) && (year <? 2 ^ 31)).
Qed.

Lemma date_year_out_of_range_witness :
  decode (DateConverter Sample.runtime ["date"; "year"]) (VStr "0")
  = Raise ValueError
  ∧ decode (DateConverter Sample.runtime ["date"; "year"])
      (VInt 4000000000)
    = Raise OverflowError.
Proof.
  split.
  - rewrite (date_year_out_of_range Sample.runtime _ (VStr "0") 0);
      [reflexivity|reflexivity|lia].
  - rewrite (date_year_out_of_range Sample.runtime _ (VInt 4000000000)
               4000000000); [reflexivity|reflexivity|lia].
Defined.

(** ** Decibels *)

Lemma string_length_app (s t : string) :
  String.length (s +:+ t) = (String.length s + String.length t)%nat.
Proof.
  induction s as [|c s IH]; [done|].
  change (String c s +:+ t) with (String c (s +:+ t)). simpl. by rewrite IH.
Qed.

Lemma string_app_empty (s : string) : s +:+ EmptyString = s.
Proof.
  induction s as [|c s IH]; [done|].
  change (String c s +:+ EmptyString) with (String c (s +:+ EmptyString)).
  by rewrite IH.
Qed.

Lemma unit_at_length (s rest : string) :
  unit_at s = Some rest → String.length s = (3 + String.length rest)%nat.
Proof.
  destruct s as [|c [|d [|b s]]]; simpl; try done; try by destruct c as [[] [] [] [] [] [] [] []].
  destruct (Ascii.eqb_spec c " ") as [->|Hc].
  - destruct ((_ || _) && _); [|done]. by intros [= ->].
  - destruct c as [[] [] [] [] [] [] [] []]; done.
Qed.

Lemma match_db_length (s : string) : ∀ group rest,
  match_db s = Some (group, rest) →
  String.length s = (String.length group + 3 + String.length rest)%nat.
Proof.
  induction s as [|c s IH]; intros group rest; [done|]. cbn [match_db].
  destruct (if Ascii.eqb c "010" then None else match_db s)
    as [[g r]|] eqn:Hm.
  - intros [= <- <-]. destruct (Ascii.eqb c "010"); [discriminate Hm|].
    simpl. rewrite (IH _ _ Hm). lia.
  - destruct (unit_at (String c s)) as [r|] eqn:Hu; [|done].
    intros [= <- <-]. by apply unit_at_length in Hu.
Qed.

(** The budget of [db_sub] is enough: a larger one gives the same text. *)
Lemma re_sub_db_enough (n : nat) : ∀ s m,
  (String.length s ≤ n)%nat → (String.length s ≤ m)%nat →
  re_sub_db n s = re_sub_db m s.
Proof.
  induction n as [|n IH]; intros s m Hn Hm.
  - destruct s; [|simpl in Hn; lia]. by destruct m.
  - destruct m as [|m]; [destruct s; [done|simpl in Hm; lia]|].
    simpl. destruct (match_db s) as [[g r]|] eqn:Hd.
    + apply match_db_length in Hd. f_equal. apply IH; lia.
    + destruct s as [|c s]; [done|]. simpl in Hn, Hm. f_equal. apply IH; lia.
Qed.

Lemma match_db_no_unit (s : string) :
  has_unit s = false → match_db s = None.
Proof.
  induction s as [|c s IH]; [done|].
  intros Hu. cbn [has_unit] in Hu. cbn [match_db].
  destruct (unit_at (String c s)) eqn:Ha; [done|].
  rewrite (IH Hu). by destruct (Ascii.eqb c "010").
Qed.

Lemma re_sub_db_no_unit (n : nat) : ∀ s,
  has_unit s = false → re_sub_db n s = s.
Proof.
  induction n as [|n IH]; intros s Hu; [done|]. simpl.
  rewrite (match_db_no_unit _ Hu). destruct s as [|c s]; [done|].
  f_equal. apply IH. cbn [has_unit] in Hu.
  by destruct (unit_at (String c s)).
Qed.

Lemma match_db_trailing (s unit : string) :
  contains_char "010" s = false →
  unit ∈ [" dB"; " DB"; " Db"; " db"] →
  match_db (s +:+ unit) = Some (s, EmptyString).
Proof.
  intros Hnl Hu. induction s as [|c s IH].
  - repeat (apply elem_of_cons in Hu as [->|Hu]; [reflexivity|]).
    by apply elem_of_nil in Hu.
  - simpl in Hnl. destruct (Ascii.eqb c "010") eqn:Hc; [done|].
    change (String c s +:+ unit) with (String c (s +:+ unit)).
    cbn [match_db]. by rewrite Hc, (IH Hnl).
Qed.

(** X16.  A unit at the end of a line is stripped before the number is
    parsed: for a string without a newline, followed by a blank and [dB] in
    either case, [DbConverter] decodes what [FloatConverter] decodes from the
    string alone. *)
Theorem db_unit_stripped (py_float : value → res float) (tags : list string)
    (s unit : string) :
  contains_char "010" s = false →
  unit ∈ [" dB"; " DB"; " Db"; " db"] →
  db_sub (s +:+ unit) = s
  ∧ decode (DbConverter py_float tags) (VStr (s +:+ unit))
    = decode (FloatConverter py_float tags) (VStr s).
Proof.
  intros Hnl Hin.
  assert (Hs : db_sub (s +:+ unit) = s).
  { unfold db_sub.
    assert (Hl : String.length (s +:+ unit) = S (String.length s + 2)).
    { rewrite string_length_app.
      repeat (apply elem_of_cons in Hin as [->|Hin]; [simpl; lia|]).
      by apply elem_of_nil in Hin. }
    rewrite Hl. cbn [re_sub_db].
    rewrite (match_db_trailing _ _ Hnl Hin).
    destruct (String.length s + 2)%nat; simpl; apply string_app_empty. }
  split; [done|]. simpl. by rewrite Hs.
Qed.

Lemma db_unit_stripped_witness :
  decode (DbConverter SampleFloat.small_float ["replaygain_track_gain"])
    (VStr "-3.2 dB")
  = Ok (VFloat (-0x1.999999999999ap+1)).
Proof.
  destruct (db_unit_stripped SampleFloat.small_float
              ["replaygain_track_gain"] "-3.2" " dB") as [_ Hd].
  - reflexivity.
  - apply elem_of_cons. by left.
  - change ("-3.2" +:+ " dB") with "-3.2 dB" in Hd. rewrite Hd.
    vm_compute. reflexivity.
Defined.

(** X17.  Where no blank followed by [dB] occurs, [DbConverter] hands the
    string to [float] unchanged, so that a gain written without the blank, as
    in ["-3.2dB"], is parsed with its unit; and what is no string raises
    [TypeError]. *)
Theorem db_without_unit (py_float : value → res float) (tags : list string) :
  (∀ s, has_unit s = false →
        db_sub s = s
        ∧ decode (DbConverter py_float tags) (VStr s)
          = decode (FloatConverter py_float tags) (VStr s))
  ∧ (∀ v, (∀ s, v ≠ VStr s) →
          decode (DbConverter py_float tags) v = Raise TypeError).
Proof.
  split.
  - intros s Hu.
    assert (Hs : db_sub s = s) by by apply re_sub_db_no_unit.
    split; [done|]. simpl. by rewrite Hs.
  - intros v Hv. destruct v; try done. by destruct (Hv s).
Qed.

Lemma db_without_unit_witness :
  db_sub "-3.2dB" = "-3.2dB"
  ∧ decode (DbConverter SampleFloat.small_float []) (VStr "-3.2dB")
    = Raise ValueError.
Proof.
  destruct (db_without_unit SampleFloat.small_float []) as [Hs _].
  destruct (Hs "-3.2dB" eq_refl) as [H1 H2].
  split; [exact H1|]. rewrite H2. vm_compute. reflexivity.
Defined.

(** * The conversion of one entry by the importer *)

Section ConvertFacts.
Variable R : Runtime.
Variable py_float : value → res float.
Variable data : gmap string value.

Lemma TAGS_all_names :
  map fst (TAGS_all R py_float)
  = [ "title"; "artist"; "album"; "genre"; "lyricist"; "composer";
      "composer_sort"; "arranger"; "grouping"; "track"; "tracktotal";
      "disc"; "disctotal"; "lyrics"; "comments"; "bpm"; "comp";
      "albumartist"; "albumtype"; "label"; "artist_sort";
      "albumartist_sort"; "asin"; "catalognum"; "disctitle"; "encoder";
      "script"; "language"; "country"; "albumstatus"; "media";
      "albumdisambig"; "date"; "original_date"; "artist_credit";
      "albumartist_credit"; "mb_trackid"; "mb_releasetrackid";
      "mb_albumid"; "mb_artistid"; "mb_albumartistid"; "mb_releasegroupid";
      "acoustid_fingerprint"; "acoustid_id"; "rg_track_gain";
      "rg_track_peak"; "rg_album_gain"; "rg_album_peak"; "r128_track_gain";
      "r128_album_gain"; "initial_key" ].
Proof. reflexivity. Qed.

Lemma TAGS_all_NoDup : NoDup (map fst (TAGS_all R py_float)).
Proof. rewrite TAGS_all_names. apply (bool_decide_unpack _). by vm_compute. Qed.

Lemma DEPENDENT_TAGS_NoDup : NoDup (map fst DEPENDENT_TAGS).
Proof. apply (bool_decide_unpack _). by vm_compute. Qed.

Lemma convert_tags_frame (tags : list (string * converter)) :
  ∀ values item values' item' tag,
    convert_tags tags data values item = Ok (values', item') →
    tag ∉ map fst tags →
    values' !! tag = values !! tag ∧ item' !! tag = item !! tag.
Proof.
  induction tags as [|[t c] tags IH]; intros values item values' item' tag;
    simpl.
  - by intros [= <- <-].
  - destruct (get c data) as [v| |]; simpl; [|done..].
    intros Hc [Hne Hnin]%not_elem_of_cons.
    destruct (is_none v).
    + by apply (IH _ _ _ _ _ Hc).
    + destruct (IH _ _ _ _ _ Hc Hnin) as [-> ->].
      by rewrite !lookup_insert_ne.
Qed.

Lemma convert_tags_lookup (tags : list (string * converter)) :
  ∀ values item values' item' tag c,
    NoDup (map fst tags) →
    (tag, c) ∈ tags →
    convert_tags tags data values item = Ok (values', item') →
    ∃ v, get c data = Ok v
      ∧ values' !! tag = (if is_none v then values !! tag else Some v)
      ∧ item' !! tag = (if is_none v then item !! tag else Some v).
Proof.
  induction tags as [|[t0 c0] tags IH]; intros values item values' item' tag c;
    simpl.
  { by intros _ ?%elem_of_nil. }
  intros [Hnin Hnd]%NoDup_cons Hin.
  destruct (get c0 data) as [v0| |] eqn:Hg; simpl; [|done..].
  intros Hc. apply elem_of_cons in Hin as [[= -> ->]|Hin].
  - exists v0. split; [done|].
    destruct (is_none v0).
    + by apply (convert_tags_frame _ _ _ _ _ _ Hc).
    + destruct (convert_tags_frame _ _ _ _ _ _ Hc Hnin) as [-> ->].
      by rewrite !lookup_insert_eq.
  - assert (Hne : t0 ≠ tag).
    { intros ->. apply Hnin. apply list_elem_of_fmap. by exists (tag, c). }
    destruct (is_none v0).
    + by apply (IH _ _ _ _ _ _ Hnd Hin Hc).
    + destruct (IH _ _ _ _ _ _ Hnd Hin Hc) as (v & Hv & Hval & Hit).
      exists v. by rewrite Hval, Hit, !lookup_insert_ne.
Qed.

Lemma convert_dependent_frame (tags : list (string * dependent_converter))
    (values : gmap string value) :
  ∀ item item' tag,
    convert_dependent tags data values item = Ok item' →
    tag ∉ map fst tags →
    item' !! tag = item !! tag.
Proof.
  induction tags as [|[t c] tags IH]; intros item item' tag; simpl.
  - by intros [= <-].
  - destruct (dependent_get c data values) as [v| |]; simpl; [|done..].
    intros Hc [Hne Hnin]%not_elem_of_cons.
    rewrite (IH _ _ _ Hc Hnin).
    destruct (is_none v); [done|]. by rewrite lookup_insert_ne.
Qed.

Lemma convert_dependent_lookup (tags : list (string * dependent_converter))
    (values : gmap string value) :
  ∀ item item' tag c,
    NoDup (map fst tags) →
    (tag, c) ∈ tags →
    convert_dependent tags data values item = Ok item' →
    ∃ v, dependent_get c data values = Ok v
      ∧ item' !! tag = (if is_none v then item !! tag else Some v).
Proof.
  induction tags as [|[t0 c0] tags IH]; intros item item' tag c; simpl.
  { by intros _ ?%elem_of_nil. }
  intros [Hnin Hnd]%NoDup_cons Hin.
  destruct (dependent_get c0 data values) as [v0| |] eqn:Hg; simpl; [|done..].
  intros Hc. apply elem_of_cons in Hin as [[= -> ->]|Hin].
  - exists v0. split; [done|].
    rewrite (convert_dependent_frame _ _ _ _ _ Hc Hnin).
    destruct (is_none v0); [done|]. by rewrite lookup_insert_eq.
  - assert (Hne : t0 ≠ tag).
    { intros ->. apply Hnin. apply list_elem_of_fmap. by exists (tag, c). }
    destruct (IH _ _ _ _ Hnd Hin Hc) as (v & Hv & Hit).
    exists v. split; [done|]. rewrite Hit.
    destruct (is_none v0); [done|]. by rewrite lookup_insert_ne.
Qed.

(** What [get] of a [DateConverter] returns is [None] or an [MTagDate]. *)
Lemma date_get_shape (tags : list string) (v : value) :
  get (DateConverter R tags) data = Ok v →
  v = VNone ∨ ∃ year month day flag, v = VMTagDate year month day flag.
Proof.
  unfold get.
  destruct (get_loop_cases (decode (DateConverter R tags)) data
              (_tags (DateConverter R tags)))
    as [[_ ->]|(t & raw & _ & _ & ->)].
  - intros [= <-]. by left.
  - intros (y & m & d & f & -> & _)%date_decode_shape. right. by eauto.
Qed.

(** No dependent converter raises on [values] whose dates are [MTagDate]s. *)
Lemma dependent_get_dates (values : gmap string value) :
  (∀ v, values !! "date" = Some v →
        ∃ year month day flag, v = VMTagDate year month day flag) →
  (∀ v, values !! "original_date" = Some v →
        ∃ year month day flag, v = VMTagDate year month day flag) →
  Forall (λ tc, ∃ v, dependent_get tc.2 data values = Ok v) DEPENDENT_TAGS.
Proof.
  intros Hd Ho. unfold DEPENDENT_TAGS.
  repeat constructor; unfold dependent_get; simpl.
  all: try (destruct (values !! "date") as [v|] eqn:Hv; [|by eexists];
            destruct (Hd v eq_refl) as (y & m & d & f & ->); by eexists).
  all: destruct (values !! "original_date") as [v|] eqn:Hv; [|by eexists];
       destruct (Ho v eq_refl) as (y & m & d & f & ->); by eexists.
Qed.

Lemma convert_inv (item item' : gmap string value) :
  convert R py_float data item = Ok item' →
  ∃ values item1,
    convert_tags (TAGS_all R py_float) data ∅ item = Ok (values, item1)
    ∧ convert_dependent DEPENDENT_TAGS data values item1 = Ok item'.
Proof.
  unfold convert.
  destruct (convert_tags (TAGS_all R py_float) data ∅ item)
    as [[values item1]| |]; [|discriminate..].
  intros Hd. by exists values, item1.
Qed.

End ConvertFacts.

Ltac not_a_name :=
  rewrite ?TAGS_all_names; apply (bool_decide_unpack _); by vm_compute.

(** X19.  No dependent converter raises on what the importer collects in
    [values].  When [values] holds under [date] and under [original_date]
    nothing but what the date converter of that name returned for the tag
    set, and nothing where it returned [None], each converter of
    [DEPENDENT_TAGS] returns. *)
Theorem dependents_never_raise (R : Runtime) (data values : gmap string value) :
  (∀ name v, name ∈ ["date"; "original_date"] →
             values !! name = Some v →
             tag_field R name data = Ok v ∧ v ≠ VNone) →
  Forall (λ tc, ∃ w, dependent_get tc.2 data values = Ok w) DEPENDENT_TAGS.
Proof.
  intros Hvalues.
  assert (Hdate : ∀ name tags v,
            name ∈ ["date"; "original_date"] →
            tag_field R name data = get (DateConverter R tags) data →
            values !! name = Some v →
            ∃ year month day flag, v = VMTagDate year month day flag).
  { intros name tags v Hn Hf Hv.
    destruct (Hvalues name v Hn Hv) as [Hg Hnone]. rewrite Hf in Hg.
    by destruct (date_get_shape R data _ _ Hg) as [->|Hs]. }
  apply dependent_get_dates.
  - intros v. apply (Hdate "date" ["date"; "year"]); [|reflexivity].
    apply elem_of_cons. by left.
  - intros v. apply (Hdate "original_date" ["originaldate"]); [|reflexivity].
    apply elem_of_cons. right. apply elem_of_cons. by left.
Qed.

Lemma dependents_never_raise_witness :
  Forall (λ tc, ∃ w, dependent_get tc.2 Cases.track_tags
                       {[ "date" := VMTagDate 1999 5 3 true ]} = Ok w)
    DEPENDENT_TAGS.
Proof.
  apply (dependents_never_raise Sample.runtime).
  intros name v Hn Hv.
  apply elem_of_cons in Hn as [->|Hn].
  - vm_compute in Hv. injection Hv as <-. split; [|discriminate].
    vm_compute. reflexivity.
  - apply elem_of_cons in Hn as [->|Hn]; [|by apply elem_of_nil in Hn].
    vm_compute in Hv. discriminate Hv.
Defined.

(** X20.  The date that is stored is a plain date.  When the field [date]
    decodes to an [MTagDate], the entry gets that date without its mark as
    [date], its year as [year], and its month and day as [month] and [day]
    when it is a full date; for a year only, [month] and [day] are left as
    they were.  When the tag set has no date, the four fields are left as
    they were. *)
Theorem stored_date_is_plain (R : Runtime) (py_float : value → res float)
    (data item item' : gmap string value) (v : value) :
  convert R py_float data item = Ok item' →
  tag_field R "date" data = Ok v →
  match v with
  | VMTagDate year month day flag =>
      item' !! "date" = Some (VDate year month day)
      ∧ item' !! "year" = Some (VInt year)
      ∧ item' !! "month" = (if flag then Some (VInt month) else item !! "month")
      ∧ item' !! "day" = (if flag then Some (VInt day) else item !! "day")
  | _ =>
      item' !! "date" = item !! "date" ∧ item' !! "year" = item !! "year"
      ∧ item' !! "month" = item !! "month" ∧ item' !! "day" = item !! "day"
  end.
Proof.
  intros (values & item1 & Ht & Hd)%convert_inv.
  change (tag_field R "date" data)
    with (get (DateConverter R ["date"; "year"]) data).
  intros Hv.
  assert (Hin : ("date", DateConverter R ["date"; "year"])
                ∈ TAGS_all R py_float)
    by (apply (list_elem_of_lookup_2 _ 32%nat); reflexivity).
  destruct (convert_tags_lookup data _ _ _ _ _ _ _
              (TAGS_all_NoDup R py_float) Hin Ht)
    as (w & Hw & Hval & Hit).
  rewrite Hv in Hw. injection Hw as <-.
  assert (Hframe : ∀ k, k ∈ ["year"; "month"; "day"] →
                        item1 !! k = item !! k).
  { intros k Hk. apply (convert_tags_frame data _ _ _ _ _ _ Ht).
    repeat (apply elem_of_cons in Hk as [->|Hk]; [not_a_name|]).
    by apply elem_of_nil in Hk. }
  assert (Hdep : ∀ i k c, DEPENDENT_TAGS !! i = Some (k, c) →
            ∃ w, dependent_get c data values = Ok w
              ∧ item' !! k = (if is_none w then item1 !! k else Some w)).
  { intros i k c Hi.
    apply (convert_dependent_lookup data _ _ _ _ _ _ DEPENDENT_TAGS_NoDup
             (list_elem_of_lookup_2 _ _ _ Hi) Hd). }
  destruct (Hdep 0%nat _ _ eq_refl) as (wy & Hwy & Hy).
  destruct (Hdep 1%nat _ _ eq_refl) as (wm & Hwm & Hm).
  destruct (Hdep 2%nat _ _ eq_refl) as (wd & Hwd & Hday).
  destruct (Hdep 6%nat _ _ eq_refl) as (wh & Hwh & Hh).
  unfold dependent_get in Hwy, Hwm, Hwd, Hwh. simpl in Hwy, Hwm, Hwd, Hwh.
  rewrite Hval in Hwy, Hwm, Hwd, Hwh.
  rewrite (Hframe "year") in Hy by (rewrite !elem_of_cons; auto).
  rewrite (Hframe "month") in Hm by (rewrite !elem_of_cons; auto).
  rewrite (Hframe "day") in Hday by (rewrite !elem_of_cons; auto).
  destruct (date_get_shape R data _ _ Hv) as [->|(y & m & d & f & ->)];
    simpl in Hwy, Hwm, Hwd, Hwh, Hit.
  - rewrite lookup_empty in Hwy, Hwm, Hwd, Hwh.
    injection Hwy as <-. injection Hwm as <-. injection Hwd as <-.
    injection Hwh as <-. simpl in Hy, Hm, Hday, Hh.
    by rewrite Hh, Hit.
  - injection Hwy as <-. injection Hwm as <-. injection Hwd as <-.
    injection Hwh as <-. simpl in Hy, Hm, Hday, Hh.
    destruct f; simpl in Hm, Hday; done.
Qed.

Lemma stored_date_is_plain_witness :
  ∃ item',
    convert Sample.runtime SampleFloat.small_float Cases.track_tags Cases.audio
    = Ok item'
    ∧ item' !! "date" = Some (VDate 1999 5 3)
    ∧ item' !! "year" = Some (VInt 1999)
    ∧ item' !! "month" = Some (VInt 5)
    ∧ item' !! "day" = Some (VInt 3).
Proof.
  assert (Hc : convert Sample.runtime SampleFloat.small_float
                 Cases.track_tags Cases.audio = Ok Cases.track_item)
    by (vm_compute; reflexivity).
  exists Cases.track_item. split; [exact Hc|].
  apply (stored_date_is_plain Sample.runtime SampleFloat.small_float
           Cases.track_tags Cases.audio _ (VMTagDate 1999 5 3 true) Hc).
  vm_compute. reflexivity.
Defined.

(** X22.  The conversion writes no field outside the two catalogs: the
    audio properties that were read from the media file before it are kept
    as they were. *)
Theorem audio_fields_kept (R : Runtime) (py_float : value → res float)
    (data item item' : gmap string value) (field : string) :
  convert R py_float data item = Ok item' →
  field ∈ AUDIO_FIELDS →
  item' !! field = item !! field.
Proof.
  intros (values & item1 & Ht & Hd)%convert_inv Hin.
  assert (Hn : (field ∉ map fst (TAGS_all R py_float))
               ∧ (field ∉ map fst DEPENDENT_TAGS)).
  { unfold AUDIO_FIELDS in Hin.
    repeat (apply elem_of_cons in Hin as [->|Hin];
            [split; [not_a_name|(apply (bool_decide_unpack _); by vm_compute)]|]).
    by apply elem_of_nil in Hin. }
  destruct Hn as [Hn1 Hn2].
  rewrite (convert_dependent_frame data _ _ _ _ _ Hd Hn2).
  by apply (convert_tags_frame data _ _ _ _ _ _ Ht).
Qed.

Lemma audio_fields_kept_witness :
  ∃ item',
    convert Sample.runtime SampleFloat.small_float Cases.track_tags Cases.audio
    = Ok item'
    ∧ item' !! "bitrate" = Some (VInt 320000).
Proof.
  assert (Hc : convert Sample.runtime SampleFloat.small_float
                 Cases.track_tags Cases.audio = Ok Cases.track_item)
    by (vm_compute; reflexivity).
  exists Cases.track_item. split; [exact Hc|].
  rewrite (audio_fields_kept Sample.runtime SampleFloat.small_float
             Cases.track_tags Cases.audio _ "bitrate" Hc).
  - reflexivity.
  - unfold AUDIO_FIELDS. rewrite !elem_of_cons. auto.
Defined.
